(** * Listings Enricher: the [enrichListings] pipeline of
      [src/React_Listings_Enricher.jsx]

    The pipeline joins parsed listing rows with parsed climate rows on
    the digit-only parcel number, filters and deduplicates the listings,
    attaches the climate attributes, derives two fields and sorts by
    price.

    Modelling choices.
    - A JavaScript string is a [string]: a sequence of code units, here
      those below 256 (the Latin-1 range).
    - A JavaScript number is an IEEE 754 binary64 value, a [spec_float]
      of the Standard Library with precision 53 and maximal exponent
      1024; [/], [-], [<] are the library's [SFdiv], [SFsub], [SFltb].
      [Number] of a string reads the grammar of numeric strings and
      rounds the decimal value to the nearest double, ties to even.
    - A row produced by the CSV parser (header mode, no dynamic typing)
      is an object whose values are strings: a [gmap string string];
      a key that is absent reads as [undefined].
    - A [Map] keeps its keys in insertion order: an association list.
    - A thrown exception is the [Err] case of a result type. *)

From Stdlib Require Import ZArith Lia Bool Ascii String List Sorted Permutation.
From Stdlib Require Import SpecFloat.
From stdpp Require Import gmap strings list.

Local Open Scope string_scope.
Local Open Scope list_scope.

(** ** Strings *)

Module JSString.

Definition code (c : ascii) : N := N_of_ascii c.

(** [!s] for a string [s]. *)
Definition is_empty (s : string) : bool :=
  match s with
  | EmptyString => true
  | String _ _ => false
  end.

(** The class [\d] of a regular expression without the unicode flag. *)
Definition is_digit (c : ascii) : bool :=
  ((48 <=? code c) && (code c <=? 57))%N.

(** [s.replace(/\D+/g, "")]: every maximal run of non-digits is
    replaced by the empty string. *)
Fixpoint remove_non_digits (s : string) : string :=
  match s with
  | EmptyString => EmptyString
  | String c s' =>
      if is_digit c then String c (remove_non_digits s')
      else remove_non_digits s'
  end.

(** Lower case of one code unit of the Latin-1 range: [A-Z], and the
    accented capitals [U+00C0 .. U+00DE] except the multiplication
    sign [U+00D7]. *)
Definition lower_char (c : ascii) : ascii :=
  let n := code c in
  if (((65 <=? n) && (n <=? 90))
      || ((192 <=? n) && (n <=? 222) && negb (n =? 215)))%N
  then ascii_of_N (n + 32)
  else c.

Fixpoint toLowerCase (s : string) : string :=
  match s with
  | EmptyString => EmptyString
  | String c s' => String (lower_char c) (toLowerCase s')
  end.

(** White space and line terminators, as [StrWhiteSpaceChar]. *)
Definition is_white_space (c : ascii) : bool :=
  let n := code c in
  ((n =? 9) || (n =? 10) || (n =? 11) || (n =? 12) || (n =? 13)
   || (n =? 32) || (n =? 160))%N.

Fixpoint trimStart (s : string) : string :=
  match s with
  | EmptyString => EmptyString
  | String c s' => if is_white_space c then trimStart s' else s
  end.

Fixpoint trimEnd (s : string) : string :=
  match s with
  | EmptyString => EmptyString
  | String c s' =>
      let t := trimEnd s' in
      if is_white_space c && is_empty t then EmptyString else String c t
  end.

Definition trim (s : string) : string := trimEnd (trimStart s).

End JSString.

(** ** Numbers *)

Module JSNumber.

Definition prec : Z := 53.
Definition emax : Z := 1024.

Definition number : Type := spec_float.

Definition NaN : number := S754_nan.
Definition zero : number := S754_zero false.

(** The operators of the language on numbers. *)
Definition div (x y : number) : number := SFdiv prec emax x y.
Definition sub (x y : number) : number := SFsub prec emax x y.
Definition ltb (x y : number) : bool := SFltb x y.
Definition leb (x y : number) : bool := SFleb x y.
Definition eqb (x y : number) : bool := SFeqb x y.

(** [Number.isFinite]. *)
Definition isFinite (x : number) : bool :=
  match x with
  | S754_zero _ | S754_finite _ _ _ => true
  | S754_infinity _ | S754_nan => false
  end.

Definition is_nan (x : number) : bool :=
  match x with
  | S754_nan => true
  | _ => false
  end.

(** The double nearest to [p / q] (ties to even), with sign [s]. *)
Definition round_ratio (s : bool) (p q : positive) : number :=
  let '(mz, ez, lz) := SFdiv_core_binary prec emax (Zpos p) 0 (Zpos q) 0 in
  binary_round_aux prec emax s mz ez lz.

(** The double nearest to [m * 10 ^ e], with sign [s]. *)
Definition round_decimal (s : bool) (m : N) (e : Z) : number :=
  match m with
  | N0 => S754_zero s
  | Npos p =>
      if (0 <=? e)%Z then round_ratio s (p * Z.to_pos (10 ^ e)) 1
      else round_ratio s p (Z.to_pos (10 ^ (- e)))
  end.

(** [Math.round]: the nearest integer, a tie going towards plus
    infinity; the sign of a zero result is the sign of the argument. *)
Definition Math_round (x : number) : number :=
  match x with
  | S754_finite s m e =>
      if (0 <=? e)%Z then x
      else
        let d := (2 ^ (- e))%Z in
        let n := ((2 * cond_Zopp s (Zpos m) + d) / (2 * d))%Z in
        if (n =? 0)%Z then S754_zero s
        else binary_normalize prec emax n 0 false
  | _ => x
  end.

(** *** [Number(v)] for a string [v] ([StringToNumber]) *)

Import JSString.

Definition digit_of (base : N) (c : ascii) : option N :=
  let n := code c in
  let v :=
    if ((48 <=? n) && (n <=? 57))%N then Some (n - 48)%N
    else if ((97 <=? n) && (n <=? 102))%N then Some (n - 87)%N
    else if ((65 <=? n) && (n <=? 70))%N then Some (n - 55)%N
    else None in
  match v with
  | Some d => if (d <? base)%N then Some d else None
  | None => None
  end.

(** Reads the longest prefix of digits of [s] in [base]: the value
    accumulated onto [acc], the number of digits read added to [n],
    and what is left of [s]. *)
Fixpoint scan_digits (base : N) (s : string) (acc n : N) : N * N * string :=
  match s with
  | EmptyString => (acc, n, s)
  | String c s' =>
      match digit_of base c with
      | Some d => scan_digits base s' (acc * base + d)%N (n + 1)%N
      | None => (acc, n, s)
      end
  end.

Definition strip_sign (s : string) : bool * string :=
  match s with
  | String "-" s' => (true, s')
  | String "+" s' => (false, s')
  | _ => (false, s)
  end.

(** [ExponentPart], optional: nothing, or [e] or [E], an optional
    sign and at least one digit, up to the end of the string. *)
Definition parse_exponent (s : string) : option Z :=
  match s with
  | EmptyString => Some 0%Z
  | String c s' =>
      if (Ascii.eqb c "e" || Ascii.eqb c "E")%bool then
        let '(neg, s'') := strip_sign s' in
        let '(v, n, rest) := scan_digits 10 s'' 0 0 in
        if ((n =? 0)%N || negb (is_empty rest))%bool then None
        else Some (cond_Zopp neg (Z.of_N v))
      else None
  end.

(** [StrUnsignedDecimalLiteral] other than [Infinity]: the digits as
    one integer and the power of ten that scales it. *)
Definition parse_unsigned_decimal (s : string) : option (N * Z) :=
  let '(ip, ni, r1) := scan_digits 10 s 0 0 in
  let '(m, nf, r2) :=
    match r1 with
    | String "." r => scan_digits 10 r ip 0
    | _ => (ip, 0%N, r1)
    end in
  if (ni + nf =? 0)%N then None
  else
    match parse_exponent r2 with
    | Some e => Some (m, (e - Z.of_N nf)%Z)
    | None => None
    end.

(** [NonDecimalIntegerLiteral]: [0x], [0o] or [0b] and digits. *)
Definition parse_non_decimal (s : string) : option N :=
  match s with
  | String "0" (String c s') =>
      let base :=
        if (Ascii.eqb c "x" || Ascii.eqb c "X")%bool then Some 16%N
        else if (Ascii.eqb c "o" || Ascii.eqb c "O")%bool then Some 8%N
        else if (Ascii.eqb c "b" || Ascii.eqb c "B")%bool then Some 2%N
        else None in
      match base with
      | Some b =>
          let '(v, n, rest) := scan_digits b s' 0 0 in
          if ((n =? 0)%N || negb (is_empty rest))%bool then None
          else Some v
      | None => None
      end
  | _ => None
  end.

Definition StringToNumber (str : string) : number :=
  let t := trim str in
  if is_empty t then zero
  else
    match parse_non_decimal t with
    | Some n => round_decimal false n 0
    | None =>
        let '(neg, u) := strip_sign t in
        if String.eqb u "Infinity" then S754_infinity neg
        else
          match parse_unsigned_decimal u with
          | Some (m, e) => round_decimal neg m e
          | None => NaN
          end
    end.

End JSNumber.

Import JSString JSNumber.

(** ** Results of code that may throw *)

Inductive result (E A : Type) : Type :=
| Ok (a : A)
| Err (e : E).
Arguments Ok {E A} a.
Arguments Err {E A} e.

Definition bind {E A B} (r : result E A) (k : A -> result E B) : result E B :=
  match r with
  | Ok a => k a
  | Err e => Err e
  end.

Notation "'try!' x := r 'in' k" := (bind r (fun x => k))
  (at level 10, x name, r at level 100, k at level 200).

(** [rows.map(f)] where [f] may throw: the first exception ends the
    traversal. *)
Fixpoint map_result {E A B} (f : A -> result E B) (l : list A)
  : result E (list B) :=
  match l with
  | [] => Ok []
  | a :: l' =>
      try! b := f a in
      try! bs := map_result f l' in
      Ok (b :: bs)
  end.

(** ** [Map]: keys in insertion order *)

Module JSMap.

Definition t (V : Type) : Type := list (string * V).

Definition empty {V} : t V := [].

Fixpoint get {V} (m : t V) (k : string) : option V :=
  match m with
  | [] => None
  | (k', v) :: m' => if decide (k' = k) then Some v else get m' k
  end.

(** [set] keeps the position of a key that is present and appends a
    new key at the end. *)
Fixpoint set {V} (m : t V) (k : string) (v : V) : t V :=
  match m with
  | [] => [(k, v)]
  | (k', v') :: m' =>
      if decide (k' = k) then (k, v) :: m' else (k', v') :: set m' k v
  end.

Definition keys {V} (m : t V) : list string := map fst m.
Definition values {V} (m : t V) : list V := map snd m.

End JSMap.

(** ** [Array.prototype.sort] with a comparison function

    The sort is stable, and [a] comes before [b] when the comparison
    function returns a number below zero on them. For a consistent
    comparison function the outcome does not depend on the algorithm;
    it is computed here by insertion, each element being put before the
    first element of the sorted rest that does not come before it. *)

Section ArraySort.
Context {A : Type} (comparefn : A -> A -> number).

Definition comes_before (a b : A) : bool := ltb (comparefn a b) zero.

Fixpoint sort_insert (x : A) (l : list A) : list A :=
  match l with
  | [] => [x]
  | y :: l' => if comes_before y x then y :: sort_insert x l' else x :: l
  end.

Definition sort (l : list A) : list A := foldr sort_insert [] l.
End ArraySort.

(** ** Schemas *)

(** A row of [Papa.parse(text, {header: true, dynamicTyping: false})]. *)
Abbreviation RawRecord := (gmap string string).

(** The exception of a schema: the required keys that are missing. *)
Inductive ZodError : Type :=
| Required (paths : list string).

Definition missing (keys : list string) (r : RawRecord) : list string :=
  filter (fun k => r !! k = None) keys.

Module Listing.
(** The value of [ListingSchema.parse]. [price] and [sqft] are still
    strings; [beds] and [baths] may be [undefined] ([None]). *)
Record t : Type := mk {
  apn : string;
  address : string;
  city : string;
  state : string;
  zip : string;
  price : string;
  beds : option string;
  baths : option string;
  sqft : string;
  status : string
}.
End Listing.

Module Climate.
Record t : Type := mk {
  apn : string;
  flood_zone : option string;
  avg_rain_inches : option string
}.
End Climate.

Definition ListingSchema_required : list string :=
  ["apn"; "address"; "zip"; "price"; "sqft"; "status"].

Definition ListingSchema_parse (r : RawRecord) : result ZodError Listing.t :=
  match r !! "apn", r !! "address", r !! "zip",
        r !! "price", r !! "sqft", r !! "status" with
  | Some apn, Some address, Some zip, Some price, Some sqft, Some status =>
      Ok {| Listing.apn := apn;
            Listing.address := address;
            Listing.city := default "" (r !! "city");
            Listing.state := default "" (r !! "state");
            Listing.zip := zip;
            Listing.price := price;
            Listing.beds := r !! "beds";
            Listing.baths := r !! "baths";
            Listing.sqft := sqft;
            Listing.status := status |}
  | _, _, _, _, _, _ => Err (Required (missing ListingSchema_required r))
  end.

Definition ClimateSchema_required : list string := ["apn"].

Definition ClimateSchema_parse (r : RawRecord) : result ZodError Climate.t :=
  match r !! "apn" with
  | Some apn =>
      Ok {| Climate.apn := apn;
            Climate.flood_zone := r !! "flood_zone";
            Climate.avg_rain_inches := r !! "avg_rain_inches" |}
  | None => Err (Required (missing ClimateSchema_required r))
  end.

(** ** Utils *)

Definition allowedStatuses : gset string :=
  {[ "for_sale"; "pending"; "sold" ]}.

Definition allowedStatuses_has (s : string) : bool :=
  bool_decide (s ∈ allowedStatuses).

(** [(apn || "").toString().replace(/\D+/g, "")] on a string. *)
Definition normalizeApn (apn : string) : string :=
  remove_non_digits (if is_empty apn then "" else apn).

(** [num]: [Number(v)] when it is finite, [NaN] otherwise. *)
Definition num (v : string) : number :=
  let x := StringToNumber v in
  if isFinite x then x else NaN.

(** Truth value of a property that is a string or [undefined]. *)
Definition truthy (v : option string) : bool :=
  match v with
  | Some s => negb (is_empty s)
  | None => false
  end.

(** ** Pipeline *)

Module ClimateEntry.
(** A value of [climateIndex]; [None] is [null]. *)
Record t : Type := mk {
  flood_zone : option string;
  avg_rain_inches : option number
}.
End ClimateEntry.

Module Cleaned.
(** An element of [cleaned]: the listing row spread, with [napn],
    the coerced numbers and the lower-cased status. *)
Record t : Type := mk {
  apn : string;
  address : string;
  city : string;
  state : string;
  zip : string;
  napn : string;
  price : number;
  sqft : number;
  beds : option number;
  baths : option number;
  status : string
}.
End Cleaned.

Module Enriched.
Record t : Type := mk {
  apn : string;
  full_address : string;
  price : number;
  beds : option number;
  baths : option number;
  sqft : number;
  price_per_sqft : number;
  status : string;
  flood_zone : option string;
  avg_rain_inches : option number
}.
End Enriched.

(** The object stored in [climateIndex] for the row [c]. *)
Definition climate_entry (c : Climate.t) : ClimateEntry.t :=
  {| ClimateEntry.flood_zone :=
       if truthy (Climate.flood_zone c) then Climate.flood_zone c else None;
     ClimateEntry.avg_rain_inches :=
       match Climate.avg_rain_inches c with
       | None => None
       | Some v => if String.eqb v "" then None else Some (num v)
       end |}.

(** One turn of the loop over [climateRows]. *)
Definition climateIndex_step (climateIndex : JSMap.t ClimateEntry.t)
    (c : Climate.t) : JSMap.t ClimateEntry.t :=
  let napn := normalizeApn (Climate.apn c) in
  if is_empty napn then climateIndex
  else JSMap.set climateIndex napn (climate_entry c).

Definition build_climateIndex (climateRows : list Climate.t)
  : JSMap.t ClimateEntry.t :=
  fold_left climateIndex_step climateRows JSMap.empty.

(** The object [row] built in the loop over [listingRows]. *)
Definition clean_row (r : Listing.t) : Cleaned.t :=
  {| Cleaned.apn := Listing.apn r;
     Cleaned.address := Listing.address r;
     Cleaned.city := Listing.city r;
     Cleaned.state := Listing.state r;
     Cleaned.zip := Listing.zip r;
     Cleaned.napn := normalizeApn (Listing.apn r);
     Cleaned.price := num (Listing.price r);
     Cleaned.sqft := num (Listing.sqft r);
     Cleaned.beds :=
       if truthy (Listing.beds r) then option_map num (Listing.beds r)
       else None;
     Cleaned.baths :=
       if truthy (Listing.baths r) then option_map num (Listing.baths r)
       else None;
     Cleaned.status := toLowerCase (Listing.status r) |}.

(** The first [continue] test of that loop. *)
Definition incomplete (r : Listing.t) : bool :=
  is_empty (normalizeApn (Listing.apn r))
  || is_empty (Listing.address r)
  || is_empty (Listing.zip r)
  || negb (isFinite (num (Listing.price r)))
  || negb (isFinite (num (Listing.sqft r))).

(** One turn of the loop over [listingRows]. *)
Definition cleaned_step (cleaned : list Cleaned.t) (r : Listing.t)
  : list Cleaned.t :=
  let row := clean_row r in
  if incomplete r then cleaned
  else if negb (allowedStatuses_has (Cleaned.status row)) then cleaned
  else cleaned ++ [row].

Definition build_cleaned (listingRows : list Listing.t) : list Cleaned.t :=
  fold_left cleaned_step listingRows [].

(** One turn of the loop over [cleaned]. *)
Definition bestByApn_step (bestByApn : JSMap.t Cleaned.t) (r : Cleaned.t)
  : JSMap.t Cleaned.t :=
  match JSMap.get bestByApn (Cleaned.napn r) with
  | None => JSMap.set bestByApn (Cleaned.napn r) r
  | Some existing =>
      if ltb (Cleaned.price r) (Cleaned.price existing)
      then JSMap.set bestByApn (Cleaned.napn r) r
      else bestByApn
  end.

Definition build_bestByApn (cleaned : list Cleaned.t) : JSMap.t Cleaned.t :=
  fold_left bestByApn_step cleaned JSMap.empty.

Definition no_climate : ClimateEntry.t :=
  {| ClimateEntry.flood_zone := None; ClimateEntry.avg_rain_inches := None |}.

Definition full_address_of (r : Cleaned.t) : string :=
  Cleaned.address r +:+ ", " +:+ Cleaned.city r +:+ ", "
  +:+ Cleaned.state r +:+ " " +:+ Cleaned.zip r.

(** The object pushed to [enriched] for [r]. *)
Definition enrich_row (climateIndex : JSMap.t ClimateEntry.t) (r : Cleaned.t)
  : Enriched.t :=
  let climate := default no_climate (JSMap.get climateIndex (Cleaned.napn r)) in
  {| Enriched.apn := Cleaned.apn r;
     Enriched.full_address := full_address_of r;
     Enriched.price := Cleaned.price r;
     Enriched.beds := Cleaned.beds r;
     Enriched.baths := Cleaned.baths r;
     Enriched.sqft := Cleaned.sqft r;
     Enriched.price_per_sqft := Math_round (div (Cleaned.price r) (Cleaned.sqft r));
     Enriched.status := Cleaned.status r;
     Enriched.flood_zone := ClimateEntry.flood_zone climate;
     Enriched.avg_rain_inches := ClimateEntry.avg_rain_inches climate |}.

Definition build_enriched (climateIndex : JSMap.t ClimateEntry.t)
    (bestByApn : JSMap.t Cleaned.t) : list Enriched.t :=
  fold_left (fun enriched r => enriched ++ [enrich_row climateIndex r])
    (JSMap.values bestByApn) [].

Definition by_price (a b : Enriched.t) : number :=
  sub (Enriched.price a) (Enriched.price b).

(** The stages after the two schemas have accepted every row. *)
Definition pipeline (listingRows : list Listing.t) (climateRows : list Climate.t)
  : list Enriched.t :=
  let climateIndex := build_climateIndex climateRows in
  let cleaned := build_cleaned listingRows in
  let bestByApn := build_bestByApn cleaned in
  let enriched := build_enriched climateIndex bestByApn in
  sort by_price enriched.

(** [enrichListings], on the rows that [parseCSV] returns for the two
    texts. *)
Definition enrichListings (listingsParsed climateParsed : list RawRecord)
  : result ZodError (list Enriched.t) :=
  try! listingRows := map_result ListingSchema_parse listingsParsed in
  try! climateRows := map_result ClimateSchema_parse climateParsed in
  Ok (pipeline listingRows climateRows).

(** ** The component's [process] callback *)

Module UI.
Record state : Type := mk {
  results : list Enriched.t;
  errors : list string
}.
End UI.

Section Process.
(** [String(err)] for an exception of a schema. *)
Variable String_of_error : ZodError -> string.

Definition process (st : UI.state) (listingsParsed climateParsed : list RawRecord)
  : UI.state :=
  match enrichListings listingsParsed climateParsed with
  | Ok enriched => {| UI.results := enriched; UI.errors := [] |}
  | Err err =>
      {| UI.results := UI.results st;
         UI.errors := [String_of_error err] |}
  end.
End Process.

(** ** Notions used to state the properties *)

(** Whether the loop over [listingRows] pushes the row of [r]. *)
Definition kept (r : Listing.t) : bool :=
  negb (incomplete r) && allowedStatuses_has (toLowerCase (Listing.status r)).

(** [r] is the first row of the lowest price among the rows of
    [cleaned] that share its normalized apn: [cleaned] splits around an
    occurrence of [r] such that the rows of the same apn before it have
    a price above that of [r] and those after it a price not below. *)
Definition first_minimum (cleaned : list Cleaned.t) (r : Cleaned.t) : Prop :=
  exists before after,
    cleaned = before ++ r :: after
    /\ (forall c, In c before -> Cleaned.napn c = Cleaned.napn r ->
                  ltb (Cleaned.price r) (Cleaned.price c) = true)
    /\ (forall c, In c after -> Cleaned.napn c = Cleaned.napn r ->
                  leb (Cleaned.price r) (Cleaned.price c) = true).

(** What the loop over [cleaned] maintains, [bestByApn] being the map
    after the rows of [cleaned] have been visited. *)
Record best_invariant (cleaned : list Cleaned.t) (bestByApn : JSMap.t Cleaned.t)
  : Prop := {
  best_keys_distinct : NoDup (JSMap.keys bestByApn);
  best_keyed_by_napn :
    Forall (fun kv => Cleaned.napn (snd kv) = fst kv) bestByApn;
  best_is_first_minimum :
    forall k r, JSMap.get bestByApn k = Some r -> first_minimum cleaned r;
  best_covers :
    forall c, In c cleaned -> JSMap.get bestByApn (Cleaned.napn c) <> None
}.

(** [x] is a result of rounding with sign [s]: a zero or an infinity of
    that sign, or a finite number of that sign within the format. *)
Definition rounded (s : bool) (x : number) : Prop :=
  match x with
  | S754_nan => False
  | S754_zero s' | S754_infinity s' => s' = s
  | S754_finite s' m e => s' = s /\ bounded prec emax m e = true
  end.

(** [x] is a zero, of either sign. *)
Definition is_zero (x : number) : bool :=
  match x with
  | S754_zero _ => true
  | _ => false
  end.

(** A number that [num] may return for a row that passes the filter. *)
Definition well_formed (x : number) : Prop :=
  isFinite x = true /\ valid_binary prec emax x = true.

(** The price of an output row is a finite number of the format. *)
Definition well_priced (row : Enriched.t) : Prop :=
  well_formed (Enriched.price row).

(** The order of the output: the price of [a] is at most that of [b]. *)
Definition price_le (a b : Enriched.t) : Prop :=
  leb (Enriched.price a) (Enriched.price b) = true.

(** The rows of [l] whose price equals [p], in the order of [l]. *)
Definition priced (p : number) (l : list Enriched.t) : list Enriched.t :=
  List.filter (fun row => eqb (Enriched.price row) p) l.

(** ** The demo data, as parsed, and rows made from it *)

(** The objects that the parser makes of a listing line and of a
    climate line. *)
Definition listing_record (apn address city state zip price beds baths sqft status : string)
  : RawRecord :=
  <["apn" := apn]> (<["address" := address]> (<["city" := city]>
  (<["state" := state]> (<["zip" := zip]> (<["price" := price]>
  (<["beds" := beds]> (<["baths" := baths]> (<["sqft" := sqft]>
  (<["status" := status]> ∅))))))))).

Definition climate_record (apn flood_zone avg_rain_inches : string) : RawRecord :=
  <["apn" := apn]> (<["flood_zone" := flood_zone]>
  (<["avg_rain_inches" := avg_rain_inches]> ∅)).

(** The six rows of [DEMO_LISTINGS_TSV] that have the ten fields. *)
Definition demo_rows : list RawRecord :=
  [ listing_record "12-34-567890" "12 Oak St" "Orlando" "FL" "32801" "450000" "3" "2" "1600" "for_sale";
    listing_record "12-34-567890" "12 Oak St" "Orlando" "FL" "32801" "440000" "3" "2" "1600" "for_sale";
    listing_record "55-66-777888" "99 Pine Ave" "Miami" "FL" "33101" "800000" "4" "3" "2200" "Pending";
    listing_record "99-00-111222" "7 Lake View" "Miami" "FL" "33101" "NaN" "2" "1" "900" "for_sale";
    listing_record "22-33-444555" "42 Elm Rd" "Tampa" "FL" "33602" "520000" "3" "2.5" "1800" "sold";
    listing_record "77-88-999000" "1 Beach Dr" "Miami" "FL" "33101" "1200000" "5" "4" "3500" "withdrawn" ].

(** Its last row has nine fields: the parser fills the first nine
    columns and leaves [status] out. *)
Definition demo_short_row : RawRecord :=
  <["apn" := "123 Unknown Rd"]> (<["address" := "Orlando"]> (<["city" := "FL"]>
  (<["state" := "32801"]> (<["zip" := "300000"]> (<["price" := "2"]>
  (<["beds" := "1"]> (<["baths" := "900"]> (<["sqft" := "for_sale"]> ∅)))))))).

Definition demo_listings : list RawRecord := demo_rows ++ [demo_short_row].

Definition demo_climate : list RawRecord :=
  [ climate_record "1234567890" "AE" "52.1";
    climate_record "5566777888" "X" "61.3";
    climate_record "2233444555" "VE" "49.0" ].

(** The third row of the demo listings, as its schema returns it. *)
Definition pending_row : Listing.t :=
  {| Listing.apn := "55-66-777888"; Listing.address := "99 Pine Ave";
     Listing.city := "Miami"; Listing.state := "FL"; Listing.zip := "33101";
     Listing.price := "800000"; Listing.beds := Some "4";
     Listing.baths := Some "3"; Listing.sqft := "2200";
     Listing.status := "Pending" |}.

(** The second demo listing with an area of zero, as its schema
    returns it. *)
Definition zero_sqft_row : Listing.t :=
  {| Listing.apn := "12-34-567890"; Listing.address := "12 Oak St";
     Listing.city := "Orlando"; Listing.state := "FL"; Listing.zip := "32801";
     Listing.price := "440000"; Listing.beds := Some "3";
     Listing.baths := Some "2"; Listing.sqft := "0";
     Listing.status := "for_sale" |}.

(** The first two rows of the demo listings, after the filter. *)
Definition demo_oak_cleaned : list Cleaned.t :=
  [ clean_row {| Listing.apn := "12-34-567890"; Listing.address := "12 Oak St";
                 Listing.city := "Orlando"; Listing.state := "FL";
                 Listing.zip := "32801"; Listing.price := "450000";
                 Listing.beds := Some "3"; Listing.baths := Some "2";
                 Listing.sqft := "1600"; Listing.status := "for_sale" |};
    clean_row {| Listing.apn := "12-34-567890"; Listing.address := "12 Oak St";
                 Listing.city := "Orlando"; Listing.state := "FL";
                 Listing.zip := "32801"; Listing.price := "440000";
                 Listing.beds := Some "3"; Listing.baths := Some "2";
                 Listing.sqft := "1600"; Listing.status := "for_sale" |} ].

(** The second demo listing on its own. *)
Definition oak_record : RawRecord :=
  listing_record "12-34-567890" "12 Oak St" "Orlando" "FL" "32801"
    "440000" "3" "2" "1600" "for_sale".

(** The second demo listing with an area of zero. *)
Definition oak_record_zero_sqft : RawRecord :=
  listing_record "12-34-567890" "12 Oak St" "Orlando" "FL" "32801"
    "440000" "3" "2" "0" "for_sale".

(** Its climate row, with a rain value that is not the text of a
    number. *)
Definition oak_climate_bad_rain : RawRecord :=
  climate_record "1234567890" "AE" "abc".

(** The third demo listing with its status in lower case. *)
Definition exact_status_record : RawRecord :=
  listing_record "55-66-777888" "99 Pine Ave" "Miami" "FL" "33101"
    "800000" "4" "3" "2200" "pending".

(** The same listing again, its status followed by a space. *)
Definition trailing_space_record : RawRecord :=
  listing_record "55-66-777888" "99 Pine Ave" "Miami" "FL" "33101"
    "800000" "4" "3" "2200" "pending ".

(** ** Notions used to state further properties *)

(** Every code unit of [s] satisfies [f]. *)
Fixpoint string_forall (f : ascii -> bool) (s : string) : bool :=
  match s with
  | EmptyString => true
  | String c s' => f c && string_forall f s'
  end.

(** The ten columns that [ListingSchema] reads and the three that
    [ClimateSchema] reads. *)
Definition ListingSchema_keys : list string :=
  ["apn"; "address"; "city"; "state"; "zip"; "price"; "beds"; "baths";
   "sqft"; "status"].

Definition ClimateSchema_keys : list string :=
  ["apn"; "flood_zone"; "avg_rain_inches"].

(** A parsed listing without the column [status] and with a column
    that no schema knows. *)
Definition no_status_record : RawRecord :=
  <["apn" := "1"]> (<["address" := "a"]> (<["zip" := "z"]>
  (<["price" := "1"]> (<["sqft" := "1"]> (<["notes" := "n"]> ∅))))).

(** A parsed climate line without the column [apn]. *)
Definition no_apn_climate_record : RawRecord :=
  <["flood_zone" := "AE"]> (<["avg_rain_inches" := "52.1"]> ∅).

(** The demo rows as [ListingSchema] returns them, and the climate rows
    as [ClimateSchema] returns them. *)
Definition demo_listing_rows : list Listing.t :=
  match map_result ListingSchema_parse demo_rows with
  | Ok rows => rows
  | Err _ => []
  end.

Definition demo_climate_rows : list Climate.t :=
  match map_result ClimateSchema_parse demo_climate with
  | Ok rows => rows
  | Err _ => []
  end.

(** The fields of an output row that are made from the listing alone. *)
Definition listing_part (row : Enriched.t)
  : string * string * number * option number * option number * number
    * number * string :=
  (Enriched.apn row, Enriched.full_address row, Enriched.price row,
   Enriched.beds row, Enriched.baths row, Enriched.sqft row,
   Enriched.price_per_sqft row, Enriched.status row).

(** The elements of [l] without repetition, each at the place of its
    first occurrence. *)
Fixpoint first_occurrences (l : list string) : list string :=
  match l with
  | [] => []
  | k :: l' =>
      k :: List.filter (fun k' => negb (bool_decide (k' = k)))
             (first_occurrences l')
  end.

(** The last row of [climateRows] whose normalized apn is [k]. *)
Fixpoint last_match (k : string) (climateRows : list Climate.t)
  : option Climate.t :=
  match climateRows with
  | [] => None
  | c :: rest =>
      match last_match k rest with
      | Some c' => Some c'
      | None =>
          if decide (normalizeApn (Climate.apn c) = k) then Some c else None
      end
  end.

(** What the loop over [listingRows] makes of an optional count. *)
Definition optional_count (v : option string) : option number :=
  match v with
  | Some s => if is_empty s then None else Some (num s)
  | None => None
  end.

(** A listing that the filter drops: its status is not an allowed
    one. *)
Definition withdrawn_row : Listing.t :=
  {| Listing.apn := "77-88-999000"; Listing.address := "1 Beach Dr";
     Listing.city := "Miami"; Listing.state := "FL"; Listing.zip := "33101";
     Listing.price := "1200000"; Listing.beds := Some "5";
     Listing.baths := Some "4"; Listing.sqft := "3500";
     Listing.status := "withdrawn" |}.

(** The attribute [disabled] of the two export buttons,
    [!results.length]. *)
Definition export_disabled (st : UI.state) : bool :=
  match UI.results st with
  | [] => true
  | _ :: _ => false
  end.

(** The first and the third climate row of the demo in the other
    order. *)
Definition demo_climate_rows_swapped : list Climate.t :=
  match demo_climate_rows with
  | a :: b :: c :: rest => c :: b :: a :: rest
  | rows => rows
  end.

(** ** Notions used to state the rounding *)

(** The value of a finite number [x] is the fraction
    [numerator x / denominator x], the denominator being a power of
    two; a zero has numerator [0]. *)
Definition numerator (x : number) : Z :=
  match x with
  | S754_finite s m e => (cond_Zopp s (Zpos m) * 2 ^ Z.max 0 e)%Z
  | _ => 0%Z
  end.

Definition denominator (x : number) : Z :=
  match x with
  | S754_finite _ _ e => (2 ^ Z.max 0 (- e))%Z
  | _ => 1%Z
  end.

(** The sign bit of [x]. *)
Definition sign (x : number) : bool :=
  match x with
  | S754_zero s | S754_infinity s | S754_finite s _ _ => s
  | S754_nan => false
  end.

(** The value of [x] is the integer [n]. *)
Definition has_value (x : number) (n : Z) : Prop :=
  isFinite x = true /\ (numerator x = n * denominator x)%Z.

(** [n] is the integer nearest to the value [v] of [x], a tie going
    up: [n - 1/2 <= v < n + 1/2]. *)
Definition nearest_half_up (x : number) (n : Z) : Prop :=
  isFinite x = true
  /\ ((2 * n - 1) * denominator x <= 2 * numerator x
      < (2 * n + 1) * denominator x)%Z.

(** [n] is the integer nearest, a tie going up, to the exact quotient
    of the values of [x] and [y], [y] being positive. *)
Definition exact_quotient_rounds_to (x y : number) (n : Z) : Prop :=
  isFinite x = true /\ isFinite y = true /\ (0 < numerator y)%Z
  /\ ((2 * n - 1) * (denominator x * numerator y)
      <= 2 * (numerator x * denominator y)
      < (2 * n + 1) * (denominator x * numerator y))%Z.

(** A listing of price 101412 and area 500.8. *)
Definition half_record : RawRecord :=
  listing_record "12-34-567890" "12 Oak St" "Orlando" "FL" "32801"
    "101412" "3" "2" "500.8" "for_sale".

(** * Lemmas *)

(** ** Lists built by pushing *)

Lemma fold_left_push {A B} (f : A -> list B) (l : list A) (acc : list B) :
  fold_left (fun acc a => acc ++ f a) l acc = acc ++ concat (map f l).
Proof.
  revert acc. induction l as [|a l IH]; intros acc; simpl.
  - now rewrite app_nil_r.
  - rewrite IH. now rewrite <- app_assoc.
Qed.

Lemma cleaned_step_kept cleaned r :
  cleaned_step cleaned r = cleaned ++ (if kept r then [clean_row r] else []).
Proof.
  unfold cleaned_step, kept. simpl.
  destruct (incomplete r); simpl; [now rewrite app_nil_r|].
  destruct (allowedStatuses_has _); simpl; [easy | now rewrite app_nil_r].
Qed.

Lemma fold_cleaned_step listingRows cleaned :
  fold_left cleaned_step listingRows cleaned
  = cleaned ++ map clean_row (filter (fun r => kept r = true) listingRows).
Proof.
  revert cleaned. induction listingRows as [|r l IH]; intros cleaned; simpl.
  - now rewrite app_nil_r.
  - rewrite IH, cleaned_step_kept, filter_cons.
    destruct (kept r) eqn:E; simpl.
    + now rewrite <- app_assoc.
    + now rewrite app_nil_r.
Qed.

Lemma build_cleaned_filter listingRows :
  build_cleaned listingRows
  = map clean_row (filter (fun r => kept r = true) listingRows).
Proof. unfold build_cleaned. now rewrite fold_cleaned_step. Qed.

Lemma build_enriched_map climateIndex bestByApn :
  build_enriched climateIndex bestByApn
  = map (enrich_row climateIndex) (JSMap.values bestByApn).
Proof.
  unfold build_enriched.
  rewrite (fold_left_push (fun r => [enrich_row climateIndex r])). simpl.
  induction (JSMap.values bestByApn) as [|r l IH]; simpl; congruence.
Qed.

(** ** The filter *)

Lemma allowedStatuses_spec s :
  s ∈ allowedStatuses <-> s = "for_sale" \/ s = "pending" \/ s = "sold".
Proof.
  unfold allowedStatuses.
  rewrite !elem_of_union, !elem_of_singleton. tauto.
Qed.

Lemma is_empty_true s : is_empty s = true <-> s = "".
Proof. destruct s; simpl; split; congruence. Qed.

Lemma kept_false_iff r :
  kept r = false <->
  normalizeApn (Listing.apn r) = "" \/ Listing.address r = ""
  \/ Listing.zip r = ""
  \/ isFinite (num (Listing.price r)) = false
  \/ isFinite (num (Listing.sqft r)) = false
  \/ toLowerCase (Listing.status r) ∉ allowedStatuses.
Proof.
  unfold kept, incomplete, allowedStatuses_has.
  rewrite andb_false_iff, negb_false_iff, !orb_true_iff, !negb_true_iff,
    !is_empty_true, bool_decide_eq_false.
  tauto.
Qed.

Lemma push_neq {A} (l : list A) (x : A) : l ++ [x] <> l.
Proof.
  intros H. apply (f_equal (@List.length A)) in H.
  rewrite length_app in H. simpl in H. lia.
Qed.

Lemma kept_allowed r :
  kept r = true ->
  toLowerCase (Listing.status r) = "for_sale"
  \/ toLowerCase (Listing.status r) = "pending"
  \/ toLowerCase (Listing.status r) = "sold".
Proof.
  unfold kept, allowedStatuses_has.
  rewrite andb_true_iff, bool_decide_eq_true, allowedStatuses_spec. tauto.
Qed.

(** ** Results *)

Lemma map_result_Ok {E A B} (f : A -> result E B) (l : list A) :
  (forall a, In a l -> exists b, f a = Ok b) ->
  exists bs, map_result f l = Ok bs.
Proof.
  induction l as [|a l IH]; intros H; simpl.
  - now exists [].
  - destruct (H a (or_introl eq_refl)) as [b ->]. simpl.
    destruct IH as [bs ->]; [intros; apply H; now right|].
    simpl. now exists (b :: bs).
Qed.

Lemma map_result_Err {E A B} (f : A -> result E B) (l : list A) a :
  In a l -> (forall b, f a <> Ok b) -> exists e, map_result f l = Err e.
Proof.
  induction l as [|a' l IH]; intros Hin Ha; simpl; [easy|].
  destruct (f a') as [b|e] eqn:Hfa; simpl; [|now exists e].
  destruct Hin as [->|Hin]; [now destruct (Ha b)|].
  destruct (IH Hin Ha) as [e ->]. simpl. now exists e.
Qed.

Lemma missing_nil keys (r : RawRecord) :
  missing keys r = [] <-> forall k, In k keys -> r !! k <> None.
Proof.
  unfold missing. induction keys as [|k keys IH]; simpl.
  - split; [intros _ ? [] | reflexivity].
  - rewrite filter_cons. destruct (decide (r !! k = None)) as [E|E].
    + split; [discriminate|]. intros H. now destruct (H k (or_introl eq_refl)).
    + rewrite IH. split.
      * intros H k' [<-|Hk]; [easy | now apply H].
      * intros H k' Hk. apply H. now right.
Qed.

Lemma ListingSchema_parse_Ok (r : RawRecord) :
  missing ListingSchema_required r = [] -> exists row, ListingSchema_parse r = Ok row.
Proof.
  rewrite missing_nil. intros H. unfold ListingSchema_parse.
  destruct (r !! "apn") eqn:E1; [|destruct (H "apn"); simpl; tauto].
  destruct (r !! "address") eqn:E2; [|destruct (H "address"); simpl; tauto].
  destruct (r !! "zip") eqn:E3; [|destruct (H "zip"); simpl; tauto].
  destruct (r !! "price") eqn:E4; [|destruct (H "price"); simpl; tauto].
  destruct (r !! "sqft") eqn:E5; [|destruct (H "sqft"); simpl; tauto].
  destruct (r !! "status") eqn:E6; [|destruct (H "status"); simpl; tauto].
  eauto.
Qed.

Lemma ListingSchema_parse_Err (r : RawRecord) :
  missing ListingSchema_required r <> [] -> forall row, ListingSchema_parse r <> Ok row.
Proof.
  intros H row Hp. apply H. apply missing_nil. intros k Hk.
  unfold ListingSchema_parse in Hp.
  destruct (r !! "apn") eqn:E1; [|discriminate].
  destruct (r !! "address") eqn:E2; [|discriminate].
  destruct (r !! "zip") eqn:E3; [|discriminate].
  destruct (r !! "price") eqn:E4; [|discriminate].
  destruct (r !! "sqft") eqn:E5; [|discriminate].
  destruct (r !! "status") eqn:E6; [|discriminate].
  simpl in Hk. intuition (subst; congruence).
Qed.

Lemma ClimateSchema_parse_Ok (r : RawRecord) :
  missing ClimateSchema_required r = [] -> exists row, ClimateSchema_parse r = Ok row.
Proof.
  rewrite missing_nil. intros H. unfold ClimateSchema_parse.
  destruct (r !! "apn") eqn:E1; [eauto|destruct (H "apn"); simpl; tauto].
Qed.

Lemma ClimateSchema_parse_Err (r : RawRecord) :
  missing ClimateSchema_required r <> [] -> forall row, ClimateSchema_parse r <> Ok row.
Proof.
  intros H row Hp. apply H. apply missing_nil. intros k Hk.
  unfold ClimateSchema_parse in Hp.
  destruct (r !! "apn") eqn:E1; [|discriminate].
  simpl in Hk. intuition (subst; congruence).
Qed.

(** ** Maps *)

Module JSMapFacts.
Import JSMap.

Lemma get_set_eq {V} (m : t V) k v : get (set m k v) k = Some v.
Proof.
  induction m as [|[k' v'] m IH]; simpl.
  - now rewrite decide_True.
  - destruct (decide (k' = k)) as [->|Hne]; simpl.
    + now rewrite decide_True.
    + now rewrite decide_False.
Qed.

Lemma get_set_ne {V} (m : t V) k k' v :
  k <> k' -> get (set m k v) k' = get m k'.
Proof.
  intros Hne. induction m as [|[k0 v0] m IH]; simpl.
  - now rewrite decide_False.
  - destruct (decide (k0 = k)) as [->|Hne0]; simpl.
    + now rewrite !decide_False.
    + destruct (decide (k0 = k')); [easy | apply IH].
Qed.

Lemma get_None {V} (m : t V) k : get m k = None <-> k ∉ keys m.
Proof.
  induction m as [|[k' v'] m IH]; simpl.
  - split; [intros _; apply not_elem_of_nil | easy].
  - rewrite not_elem_of_cons. destruct (decide (k' = k)) as [->|Hne].
    + split; [discriminate | tauto].
    + rewrite IH. split; [intros H; split; [congruence | easy] | tauto].
Qed.

Lemma values_set_fresh {V} (m : t V) k v :
  get m k = None -> values (set m k v) = values m ++ [v].
Proof.
  induction m as [|[k' v'] m IH]; simpl; [easy|].
  destruct (decide (k' = k)); [discriminate|].
  intros H. unfold values in *. simpl. f_equal. now apply IH.
Qed.

Lemma keys_set_fresh {V} (m : t V) k v :
  get m k = None -> keys (set m k v) = keys m ++ [k].
Proof.
  induction m as [|[k' v'] m IH]; simpl; [easy|].
  destruct (decide (k' = k)); [discriminate|].
  intros H. unfold keys in *. simpl. f_equal. now apply IH.
Qed.

Lemma keys_set_present {V} (m : t V) k v :
  get m k <> None -> keys (set m k v) = keys m.
Proof.
  induction m as [|[k' v'] m IH]; simpl; [easy|].
  destruct (decide (k' = k)) as [->|Hne]; simpl; [easy|].
  intros H. unfold keys in *. simpl. f_equal. now apply IH.
Qed.

Lemma In_values {V} (m : t V) v :
  NoDup (keys m) -> (In v (values m) <-> exists k, get m k = Some v).
Proof.
  induction m as [|[k' v'] m IH]; simpl; intros Hnd.
  - split; [easy | now intros [k Hk]].
  - inversion Hnd as [|? ? Hnotin Hnd']; subst. rewrite (IH Hnd'). split.
    + intros [->|[k Hk]].
      * exists k'. now rewrite decide_True.
      * exists k. destruct (decide (k' = k)) as [->|Hne]; [|easy].
        apply get_None in Hnotin. congruence.
    + intros [k Hk]. destruct (decide (k' = k)); [left; congruence | eauto].
Qed.

End JSMapFacts.

(** ** The order of numbers *)

Module JSNumberOrder.

Lemma compare_antisym (a b : number) :
  SFcompare b a = option_map CompOpp (SFcompare a b).
Proof.
  destruct a as [[]|[]| |[] ma ea], b as [[]|[]| |[] mb eb]; simpl; try reflexivity;
    rewrite (Z.compare_antisym ea eb); destruct (ea ?= eb)%Z; simpl; try reflexivity;
    change (Pos.compare_cont Eq mb ma) with (Pos.compare mb ma);
    change (Pos.compare_cont Eq ma mb) with (Pos.compare ma mb);
    rewrite (Pos.compare_antisym ma mb); now destruct (ma ?= mb)%positive.
Qed.

Ltac order_cases ea eb ec ma mb mc :=
  change (Pos.compare_cont Eq ma mb) with (Pos.compare ma mb);
  change (Pos.compare_cont Eq mb mc) with (Pos.compare mb mc);
  change (Pos.compare_cont Eq ma mc) with (Pos.compare ma mc);
  destruct (Z.compare_spec ea eb), (Z.compare_spec eb ec),
    (Z.compare_spec ea ec); try lia; try easy;
  destruct (Pos.compare_spec ma mb), (Pos.compare_spec mb mc),
    (Pos.compare_spec ma mc); simpl; try lia; try easy.

Lemma compare_Lt_trans (a b c : number) :
  SFcompare a b = Some Lt -> SFcompare b c = Some Lt -> SFcompare a c = Some Lt.
Proof.
  destruct a as [[]|[]| |[] ma ea], b as [[]|[]| |[] mb eb],
    c as [[]|[]| |[] mc ec]; simpl; try easy; order_cases ea eb ec ma mb mc.
Qed.

Lemma compare_Eq_l (a b c : number) :
  SFcompare a b = Some Eq -> SFcompare b c = SFcompare a c.
Proof.
  destruct a as [[]|[]| |[] ma ea], b as [[]|[]| |[] mb eb],
    c as [[]|[]| |[] mc ec]; simpl; try easy; order_cases ea eb ec ma mb mc.
Qed.

Lemma compare_Eq_r (a b c : number) :
  SFcompare b c = Some Eq -> SFcompare a b = SFcompare a c.
Proof.
  intros H. rewrite (compare_antisym b a), (compare_antisym c a).
  f_equal. apply compare_Eq_l.
  rewrite compare_antisym, H. reflexivity.
Qed.

Lemma compare_Some (a b : number) :
  is_nan a = false -> is_nan b = false -> exists c, SFcompare a b = Some c.
Proof.
  destruct a as [[]|[]| |[] ma ea], b as [[]|[]| |[] mb eb]; simpl;
    try discriminate; eauto.
Qed.

Lemma ltb_trans a b c :
  ltb a b = true -> ltb b c = true -> ltb a c = true.
Proof.
  unfold ltb, SFltb. intros Hab Hbc.
  destruct (SFcompare a b) as [[]|] eqn:E1; try discriminate.
  destruct (SFcompare b c) as [[]|] eqn:E2; try discriminate.
  now rewrite (compare_Lt_trans a b c E1 E2).
Qed.

Lemma ltb_leb_trans a b c :
  ltb a b = true -> leb b c = true -> ltb a c = true.
Proof.
  unfold ltb, leb, SFltb, SFleb. intros Hab Hbc.
  destruct (SFcompare a b) as [[]|] eqn:E1; try discriminate.
  destruct (SFcompare b c) as [[]|] eqn:E2; try discriminate.
  - now rewrite <- (compare_Eq_r a b c E2), E1.
  - now rewrite (compare_Lt_trans a b c E1 E2).
Qed.

Lemma leb_trans a b c :
  leb a b = true -> leb b c = true -> leb a c = true.
Proof.
  unfold leb, SFleb. intros Hab Hbc.
  destruct (SFcompare a b) as [[]|] eqn:E1; try discriminate.
  - now rewrite <- (compare_Eq_l a b c E1).
  - destruct (SFcompare b c) as [[]|] eqn:E2; try discriminate.
    + now rewrite <- (compare_Eq_r a b c E2), E1.
    + now rewrite (compare_Lt_trans a b c E1 E2).
Qed.

Lemma ltb_leb a b : ltb a b = true -> leb a b = true.
Proof.
  unfold ltb, leb, SFltb, SFleb. now destruct (SFcompare a b) as [[]|].
Qed.

Lemma not_ltb_leb a b :
  is_nan a = false -> is_nan b = false -> ltb a b = false -> leb b a = true.
Proof.
  intros Ha Hb. unfold ltb, leb, SFltb, SFleb.
  rewrite (compare_antisym a b).
  destruct (compare_Some a b Ha Hb) as [[] ->]; simpl; congruence.
Qed.

Lemma ltb_not_eqb a b p :
  ltb a b = true -> eqb b p = true -> eqb a p = false.
Proof.
  unfold ltb, eqb, SFltb, SFeqb. intros Hab Hbp.
  destruct (SFcompare b p) as [[]|] eqn:E; try discriminate.
  rewrite <- (compare_Eq_r a b p E).
  now destruct (SFcompare a b) as [[]|].
Qed.

Lemma isFinite_not_nan a : isFinite a = true -> is_nan a = false.
Proof. now destruct a. Qed.

End JSNumberOrder.

(** ** Rounding to binary64 *)

Module JSNumberFacts.

Local Open Scope Z_scope.

Local Abbreviation fexp := (SpecFloat.fexp prec emax).
Local Abbreviation emin := (SpecFloat.emin prec emax).

Lemma fexp_eq z : fexp z = Z.max (z - 53) (-1074).
Proof. reflexivity. Qed.

Lemma emin_eq : emin = -1074.
Proof. reflexivity. Qed.

(** *** Values of [Number] and [Math.round] *)

Example StringToNumber_decimal :
  StringToNumber "440000" = S754_finite false 7559142440960000 (-34)
  /\ StringToNumber " 52.1 " = S754_finite false 7332423143312589 (-47)
  /\ StringToNumber "0.1" = S754_finite false 7205759403792794 (-56)
  /\ StringToNumber "1e3" = StringToNumber "1000"
  /\ StringToNumber ".5" = StringToNumber "5.e-1"
  /\ StringToNumber "0x1F" = StringToNumber "31"
  /\ StringToNumber "" = S754_zero false
  /\ StringToNumber "-0" = S754_zero true.
Proof. repeat split; vm_compute; reflexivity. Qed.

Example StringToNumber_not_a_number :
  StringToNumber "abc" = NaN /\ StringToNumber "NaN" = NaN
  /\ StringToNumber "1,5" = NaN /\ StringToNumber "." = NaN
  /\ StringToNumber "1e" = NaN /\ StringToNumber "-0x10" = NaN
  /\ StringToNumber "pending " = NaN.
Proof. repeat split; vm_compute; reflexivity. Qed.

(** Ties go to the even mantissa, the smallest positive number is
    [2 ^ -1074], and the largest finite one is below [2 ^ 1024]. *)
Example StringToNumber_limits :
  StringToNumber "9007199254740993" = S754_finite false 4503599627370496 1
  /\ StringToNumber "5e-324" = S754_finite false 1 (-1074)
  /\ StringToNumber "2e-324" = S754_zero false
  /\ StringToNumber "1.7976931348623157e308"
     = S754_finite false 9007199254740991 971
  /\ StringToNumber "1.7976931348623159e308" = S754_infinity false
  /\ StringToNumber "-Infinity" = S754_infinity true
  /\ num "-Infinity" = NaN.
Proof. repeat split; vm_compute; reflexivity. Qed.

Example Math_round_ties :
  Math_round (StringToNumber "2.5") = StringToNumber "3"
  /\ Math_round (StringToNumber "-2.5") = StringToNumber "-2"
  /\ Math_round (StringToNumber "-0.5") = S754_zero true
  /\ Math_round (StringToNumber "0.49999999999999994") = S754_zero false
  /\ Math_round (StringToNumber "-0.7") = StringToNumber "-1"
  /\ Math_round (div (StringToNumber "440000") (StringToNumber "1600"))
     = StringToNumber "275".
Proof. repeat split; vm_compute; reflexivity. Qed.

(** *** Number of binary digits *)

Lemma digits2_pos_log2 p : Zpos (digits2_pos p) = Z.log2 (Zpos p) + 1.
Proof.
  induction p as [p IH|p IH|]; simpl digits2_pos; try reflexivity;
    rewrite Pos2Z.inj_succ, IH.
  - change (Zpos p~1) with (2 * Zpos p + 1).
    rewrite Z.log2_succ_double by lia. lia.
  - change (Zpos p~0) with (2 * Zpos p).
    rewrite Z.log2_double by lia. lia.
Qed.

Lemma Zdigits2_log2 m : 0 < m -> Zdigits2 m = Z.log2 m + 1.
Proof. destruct m; try lia. intros _. apply digits2_pos_log2. Qed.

Lemma Zdigits2_pos m : 0 <= m -> (0 < Zdigits2 m <-> 0 < m).
Proof.
  intros Hm. destruct m; simpl; try lia.
Qed.

Lemma Zdigits2_nonneg m : 0 <= Zdigits2 m.
Proof. destruct m; simpl; lia. Qed.

Lemma Zdigits2_bounds m :
  0 < m -> 2 ^ (Zdigits2 m - 1) <= m < 2 ^ Zdigits2 m.
Proof.
  intros Hm. rewrite Zdigits2_log2 by exact Hm.
  replace (Z.log2 m + 1 - 1) with (Z.log2 m) by lia.
  replace (Z.log2 m + 1) with (Z.succ (Z.log2 m)) by lia.
  now apply Z.log2_spec.
Qed.

Lemma Zdigits2_shiftr m n :
  0 <= m -> 0 <= n -> Zdigits2 (m / 2 ^ n) = Z.max 0 (Zdigits2 m - n).
Proof.
  intros Hm Hn. rewrite <- Z.shiftr_div_pow2 by exact Hn.
  destruct (Z.eq_dec m 0) as [->|Hm0].
  - rewrite Z.shiftr_0_l. change (Zdigits2 0) with 0. lia.
  - destruct (Z.eq_dec (Z.shiftr m n) 0) as [E|E].
    + rewrite E. apply Z.shiftr_eq_0_iff in E.
      rewrite (Zdigits2_log2 m) by lia. change (Zdigits2 0) with 0. lia.
    + assert (0 <= Z.shiftr m n) by (apply Z.shiftr_nonneg; lia).
      rewrite !Zdigits2_log2 by lia.
      rewrite Z.log2_shiftr by lia.
      assert (~ Z.log2 m < n).
      { intros Hlt. apply E. apply Z.shiftr_eq_0_iff. right. lia. }
      lia.
Qed.

Lemma Zdigits2_succ m :
  0 <= m -> Zdigits2 (m + 1) = Zdigits2 m \/ Zdigits2 (m + 1) = Zdigits2 m + 1.
Proof.
  intros Hm. destruct (Z.eq_dec m 0) as [->|Hm0]; [now right|].
  rewrite !Zdigits2_log2 by lia.
  destruct (Z.log2_succ_or m) as [H|H]; unfold Z.succ in H; lia.
Qed.

Lemma Zdigits2_mul_pow2 m n :
  0 < m -> 0 <= n -> Zdigits2 (m * 2 ^ n) = Zdigits2 m + n.
Proof.
  intros Hm Hn.
  assert (0 < 2 ^ n) by (apply Z.pow_pos_nonneg; lia).
  rewrite !Zdigits2_log2 by nia.
  rewrite Z.log2_mul_pow2 by lia. lia.
Qed.

Lemma Zdigits2_lower m k :
  0 <= k -> 2 ^ k <= m -> k + 1 <= Zdigits2 m.
Proof.
  intros Hk Hm.
  assert (0 < 2 ^ k) by (apply Z.pow_pos_nonneg; lia).
  rewrite Zdigits2_log2 by lia.
  apply Z.log2_le_pow2 in Hm; lia.
Qed.

(** *** Shifting to the right *)

Lemma shr_1_m mrs : 0 <= shr_m mrs -> shr_m (shr_1 mrs) = shr_m mrs / 2.
Proof.
  destruct mrs as [m r s]. simpl. intros Hm.
  destruct m as [|[p|p|]|p]; simpl; try lia.
  - reflexivity.
  - change (Zpos p~1) with (2 * Zpos p + 1).
    apply Z.div_unique with 1; lia.
  - change (Zpos p~0) with (2 * Zpos p).
    apply Z.div_unique with 0; lia.
  - reflexivity.
Qed.

Lemma iter_shr_1_m p mrs :
  0 <= shr_m mrs ->
  shr_m (SpecFloat.iter_pos shr_1 p mrs) = shr_m mrs / 2 ^ Zpos p.
Proof.
  revert mrs. induction p as [p IH|p IH|]; intros mrs Hm;
    simpl SpecFloat.iter_pos.
  - assert (Hp : 0 < 2 ^ Zpos p) by (apply Z.pow_pos_nonneg; lia).
    assert (Hpow : 2 ^ Zpos p~1 = 2 * (2 ^ Zpos p * 2 ^ Zpos p)).
    { assert (E : Zpos p~1 = 1 + (Zpos p + Zpos p)) by lia.
      rewrite E, !Z.pow_add_r by lia. reflexivity. }
    assert (H1 : 0 <= shr_m (shr_1 mrs)).
    { rewrite shr_1_m by exact Hm. apply Z.div_pos; lia. }
    assert (H2 : 0 <= shr_m (SpecFloat.iter_pos shr_1 p (shr_1 mrs))).
    { rewrite IH by exact H1. apply Z.div_pos; lia. }
    rewrite IH by exact H2. rewrite IH by exact H1. rewrite shr_1_m by exact Hm.
    rewrite Hpow, !Z.div_div by lia. reflexivity.
  - assert (Hp : 0 < 2 ^ Zpos p) by (apply Z.pow_pos_nonneg; lia).
    assert (Hpow : 2 ^ Zpos p~0 = 2 ^ Zpos p * 2 ^ Zpos p).
    { assert (E : Zpos p~0 = Zpos p + Zpos p) by lia.
      rewrite E, !Z.pow_add_r by lia. reflexivity. }
    assert (H2 : 0 <= shr_m (SpecFloat.iter_pos shr_1 p mrs)).
    { rewrite IH by exact Hm. apply Z.div_pos; lia. }
    rewrite IH by exact H2. rewrite IH by exact Hm.
    rewrite Hpow, !Z.div_div by lia. reflexivity.
  - rewrite shr_1_m by exact Hm. reflexivity.
Qed.

Lemma shr_spec mrs e n :
  0 <= shr_m mrs ->
  shr_m (fst (shr mrs e n)) = shr_m mrs / 2 ^ Z.max 0 n
  /\ snd (shr mrs e n) = e + Z.max 0 n.
Proof.
  intros Hm. destruct n as [|p|p]; simpl.
  - rewrite Z.div_1_r. lia.
  - rewrite iter_shr_1_m by exact Hm. split; [reflexivity | lia].
  - rewrite Z.div_1_r. lia.
Qed.

Lemma shr_m_of_loc m l : shr_m (shr_record_of_loc m l) = m.
Proof. now destruct l as [|[]]. Qed.

Lemma round_nearest_even_cases m l :
  round_nearest_even m l = m \/ round_nearest_even m l = m + 1.
Proof.
  destruct l as [|[]]; simpl; try tauto. destruct (Z.even m); tauto.
Qed.

(** *** [binary_round_aux] *)

Lemma binary_round_aux_spec s m e l :
  0 <= m -> e <= fexp (Zdigits2 m + e) ->
  rounded s (binary_round_aux prec emax s m e l)
  /\ (0 < m -> emin <= e ->
      is_zero (binary_round_aux prec emax s m e l) = false).
Proof.
  intros Hm Hpre. unfold binary_round_aux, shr_fexp.
  pose proof (shr_spec (shr_record_of_loc m l) e
                (fexp (Zdigits2 m + e) - e)) as H1.
  rewrite shr_m_of_loc in H1. specialize (H1 Hm).
  destruct (shr (shr_record_of_loc m l) e (fexp (Zdigits2 m + e) - e))
    as [mrs1 e1]. simpl in H1. destruct H1 as [Hm1 He1].
  assert (Hn1 : 0 <= Z.max 0 (fexp (Zdigits2 m + e) - e)) by lia.
  assert (Hm1pos : 0 <= shr_m mrs1).
  { rewrite Hm1. apply Z.div_pos; [lia | apply Z.pow_pos_nonneg; lia]. }
  pose proof (Zdigits2_shiftr m _ Hm Hn1) as Hd1. rewrite <- Hm1 in Hd1.
  set (m2 := round_nearest_even (shr_m mrs1) (loc_of_shr_record mrs1)).
  assert (Hm2 : 0 <= m2
                /\ (Zdigits2 m2 = Zdigits2 (shr_m mrs1)
                    \/ Zdigits2 m2 = Zdigits2 (shr_m mrs1) + 1)).
  { unfold m2.
    destruct (round_nearest_even_cases (shr_m mrs1) (loc_of_shr_record mrs1))
      as [->| ->].
    - split; [lia | now left].
    - split; [lia | now apply Zdigits2_succ]. }
  destruct Hm2 as [Hm2 Hd2].
  pose proof (shr_spec (shr_record_of_loc m2 loc_Exact) e1
                (fexp (Zdigits2 m2 + e1) - e1)) as H3.
  rewrite shr_m_of_loc in H3. specialize (H3 Hm2).
  destruct (shr (shr_record_of_loc m2 loc_Exact) e1
              (fexp (Zdigits2 m2 + e1) - e1)) as [mrs3 e3].
  simpl in H3. destruct H3 as [Hm3 He3].
  assert (Hn3 : 0 <= Z.max 0 (fexp (Zdigits2 m2 + e1) - e1)) by lia.
  pose proof (Zdigits2_shiftr m2 _ Hm2 Hn3) as Hd3. rewrite <- Hm3 in Hd3.
  assert (Hm3pos : 0 <= shr_m mrs3).
  { rewrite Hm3. apply Z.div_pos; [lia | apply Z.pow_pos_nonneg; lia]. }
  pose proof (Zdigits2_pos m Hm) as Hdm.
  pose proof (Zdigits2_nonneg m) as Hdm'.
  rewrite !fexp_eq in *. rewrite emin_eq.
  destruct (shr_m mrs3) as [|p|p] eqn:E3.
  - split; [reflexivity|]. intros Hpos Hmin. exfalso.
    change (Zdigits2 0) with 0 in Hd3. lia.
  - change (Zdigits2 (Zpos p)) with (Zpos (digits2_pos p)) in Hd3.
    destruct (e3 <=? emax - prec) eqn:Ele; simpl.
    + split; [|easy]. split; [reflexivity|].
      unfold bounded, canonical_mantissa. rewrite Ele, andb_true_r.
      apply Z.eqb_eq. rewrite fexp_eq. lia.
    + split; easy.
  - lia.
Qed.

Lemma rounded_valid s x : rounded s x -> valid_binary prec emax x = true.
Proof. destruct x; simpl; tauto. Qed.

Lemma rounded_not_nan s x : rounded s x -> is_nan x = false.
Proof. destruct x; simpl; tauto. Qed.

(** *** Division of two positive integers *)

Lemma div_core_spec p e1 q e2 :
  0 <= fst (fst (SFdiv_core_binary prec emax (Zpos p) e1 (Zpos q) e2))
  /\ snd (fst (SFdiv_core_binary prec emax (Zpos p) e1 (Zpos q) e2))
     <= fexp (Zdigits2 (fst (fst (SFdiv_core_binary prec emax (Zpos p) e1 (Zpos q) e2)))
              + snd (fst (SFdiv_core_binary prec emax (Zpos p) e1 (Zpos q) e2))).
Proof.
  unfold SFdiv_core_binary.
  set (d1 := Zdigits2 (Zpos p)). set (d2 := Zdigits2 (Zpos q)).
  set (e' := Z.min (fexp (d1 + e1 - (d2 + e2))) (e1 - e2)).
  set (s := e1 - e2 - e').
  assert (Hs : 0 <= s) by (unfold s, e'; lia).
  set (m' := match s with
             | 0 => Zpos p
             | Zpos _ => Z.shiftl (Zpos p) s
             | Zneg _ => 0
             end).
  assert (Hm' : m' = Zpos p * 2 ^ s).
  { unfold m'. destruct s as [|k|k]; [rewrite Z.mul_1_r; reflexivity | | lia].
    now rewrite Z.shiftl_mul_pow2. }
  assert (H2s : 0 < 2 ^ s) by (apply Z.pow_pos_nonneg; lia).
  assert (Hq : fst (Z.div_eucl m' (Zpos q)) = m' / Zpos q) by reflexivity.
  destruct (Z.div_eucl m' (Zpos q)) as [qq r]. simpl in Hq |- *.
  assert (Hqq : 0 <= qq) by (rewrite Hq; apply Z.div_pos; nia).
  split; [exact Hqq|].
  pose proof (Zdigits2_nonneg qq) as Hdq.
  pose proof (Zdigits2_bounds (Zpos p) eq_refl) as Hb1.
  pose proof (Zdigits2_bounds (Zpos q) eq_refl) as Hb2.
  fold d1 in Hb1. fold d2 in Hb2.
  assert (Hd1 : 1 <= d1) by (unfold d1; simpl; lia).
  assert (Hd2 : 1 <= d2) by (unfold d2; simpl; lia).
  destruct (Z_le_gt_dec d2 (d1 - 1 + s)) as [Hle|Hgt].
  - assert (Hk : d1 - 1 + s - d2 + 1 <= Zdigits2 qq).
    { apply Zdigits2_lower; [lia|]. rewrite Hq.
      apply Z.div_le_lower_bound; [lia|]. rewrite Hm'.
      apply Z.le_trans with (2 ^ d2 * 2 ^ (d1 - 1 + s - d2)).
      - apply Z.mul_le_mono_nonneg_r; [apply Z.pow_nonneg; lia | lia].
      - rewrite <- Z.pow_add_r by lia.
        replace (d2 + (d1 - 1 + s - d2)) with (d1 - 1 + s) by lia.
        rewrite Z.pow_add_r by lia. nia. }
    unfold s, e' in *. rewrite !fexp_eq in *. lia.
  - unfold s, e' in *. rewrite !fexp_eq in *. lia.
Qed.

Lemma round_ratio_spec s p q : rounded s (round_ratio s p q).
Proof.
  unfold round_ratio.
  pose proof (div_core_spec p 0 q 0) as [H1 H2].
  destruct (SFdiv_core_binary prec emax (Zpos p) 0 (Zpos q) 0) as [[mz ez] lz].
  simpl in H1, H2. now apply binary_round_aux_spec.
Qed.

Lemma round_decimal_spec s m e : rounded s (round_decimal s m e).
Proof.
  unfold round_decimal. destruct m; [reflexivity|].
  destruct (0 <=? e); apply round_ratio_spec.
Qed.

(** *** Rounding an integer mantissa *)

Lemma iter_xO m d : Zpos (Pos.iter xO m d) = Zpos m * 2 ^ Zpos d.
Proof.
  induction d as [|d IH] using Pos.peano_ind.
  - simpl. lia.
  - rewrite Pos.iter_succ, Pos2Z.inj_succ, Z.pow_succ_r by lia.
    rewrite Pos2Z.inj_xO, IH. lia.
Qed.

Lemma shl_align_spec m e e' :
  snd (shl_align m e e') = Z.min e e'
  /\ Zpos (fst (shl_align m e e')) = Zpos m * 2 ^ (e - Z.min e e').
Proof.
  unfold shl_align. destruct (e' - e) as [|d|d] eqn:E; simpl.
  - replace (e - Z.min e e') with 0 by lia. lia.
  - replace (e - Z.min e e') with 0 by lia. lia.
  - rewrite iter_xO. replace (e - Z.min e e') with (Zpos d) by lia. lia.
Qed.

Lemma binary_round_spec s m e :
  emin <= e ->
  rounded s (binary_round prec emax s m e)
  /\ is_zero (binary_round prec emax s m e) = false.
Proof.
  intros He. unfold binary_round.
  pose proof (shl_align_spec m e (fexp (Zpos (digits2_pos m) + e))) as [H1 H2].
  destruct (shl_align m e (fexp (Zpos (digits2_pos m) + e))) as [mz ez].
  simpl in H1, H2.
  assert (Hd : Zdigits2 (Zpos mz) = Zpos (digits2_pos m) + (e - ez)).
  { rewrite H2, Zdigits2_mul_pow2 by lia. rewrite H1. reflexivity. }
  assert (Hpre : ez <= fexp (Zdigits2 (Zpos mz) + ez)).
  { rewrite Hd. rewrite !fexp_eq in *. lia. }
  destruct (binary_round_aux_spec s (Zpos mz) ez loc_Exact) as [Hr Hz];
    [lia | exact Hpre |].
  split; [exact Hr|]. apply Hz; [lia|].
  rewrite H1. rewrite !fexp_eq, emin_eq in *. lia.
Qed.

Lemma binary_normalize_spec n e :
  n <> 0 -> emin <= e ->
  rounded (n <? 0) (binary_normalize prec emax n e false)
  /\ is_zero (binary_normalize prec emax n e false) = false.
Proof.
  intros Hn He. destruct n as [|p|p]; [easy| |]; simpl;
    now apply binary_round_spec.
Qed.

(** *** [num] *)

Lemma StringToNumber_valid v : valid_binary prec emax (StringToNumber v) = true.
Proof.
  unfold StringToNumber.
  destruct (is_empty (trim v)); [reflexivity|].
  destruct (parse_non_decimal (trim v)) as [n|].
  - apply rounded_valid with false, round_decimal_spec.
  - destruct (strip_sign (trim v)) as [neg u].
    destruct (String.eqb u "Infinity"); [reflexivity|].
    destruct (parse_unsigned_decimal u) as [[m e]|]; [|reflexivity].
    apply rounded_valid with neg, round_decimal_spec.
Qed.

Lemma num_valid v : valid_binary prec emax (num v) = true.
Proof.
  unfold num. destruct (isFinite (StringToNumber v)); [|reflexivity].
  apply StringToNumber_valid.
Qed.

Lemma num_well_formed v : isFinite (num v) = true -> well_formed (num v).
Proof. intros H. split; [exact H | apply num_valid]. Qed.

(** *** Comparison and subtraction of finite numbers *)

Lemma bounded_canonical m e :
  bounded prec emax m e = true -> fexp (Zdigits2 (Zpos m) + e) = e.
Proof.
  unfold bounded, canonical_mantissa. rewrite andb_true_iff, Z.eqb_eq. tauto.
Qed.

(** The mantissas of [x] and [y], signed and brought to the smaller
    of the two exponents. *)
Lemma aligned_compare mx ex my ey :
  bounded prec emax mx ex = true -> bounded prec emax my ey = true ->
  match ex ?= ey with
  | Lt => Lt
  | Gt => Gt
  | Eq => (mx ?= my)%positive
  end
  = (Zpos mx * 2 ^ (ex - Z.min ex ey) ?= Zpos my * 2 ^ (ey - Z.min ex ey)).
Proof.
  intros Hx Hy. apply bounded_canonical in Hx, Hy.
  pose proof (Zdigits2_bounds (Zpos mx) eq_refl) as Bx.
  pose proof (Zdigits2_bounds (Zpos my) eq_refl) as By.
  rewrite fexp_eq in Hx, Hy.
  assert (P52 : 2 ^ 52 * 2 = 2 ^ 53) by reflexivity.
  destruct (Z.compare_spec ex ey) as [E|E|E].
  - subst ey. rewrite Z.min_id, Z.sub_diag. simpl (2 ^ 0).
    rewrite !Z.mul_1_r. reflexivity.
  - symmetry. apply Z.compare_lt_iff.
    rewrite Z.min_l, Z.sub_diag by lia. simpl (2 ^ 0). rewrite Z.mul_1_r.
    assert (Hdy : Zdigits2 (Zpos my) = 53) by lia.
    assert (Hdx : Zdigits2 (Zpos mx) <= 53) by lia.
    rewrite Hdy in By. simpl (53 - 1) in By.
    assert (Zpos mx < 2 ^ 53).
    { apply Z.lt_le_trans with (2 ^ Zdigits2 (Zpos mx)); [lia|].
      apply Z.pow_le_mono_r; lia. }
    assert (2 ^ 1 <= 2 ^ (ey - ex)) by (apply Z.pow_le_mono_r; lia).
    change (2 ^ 1) with 2 in *. nia.
  - symmetry. apply Z.compare_gt_iff.
    rewrite Z.min_r, Z.sub_diag by lia. simpl (2 ^ 0). rewrite Z.mul_1_r.
    assert (Hdx : Zdigits2 (Zpos mx) = 53) by lia.
    assert (Hdy : Zdigits2 (Zpos my) <= 53) by lia.
    rewrite Hdx in Bx. simpl (53 - 1) in Bx.
    assert (Zpos my < 2 ^ 53).
    { apply Z.lt_le_trans with (2 ^ Zdigits2 (Zpos my)); [lia|].
      apply Z.pow_le_mono_r; lia. }
    assert (2 ^ 1 <= 2 ^ (ex - ey)) by (apply Z.pow_le_mono_r; lia).
    change (2 ^ 1) with 2 in *. nia.
Qed.

Lemma compare_finite sx mx ex sy my ey :
  bounded prec emax mx ex = true -> bounded prec emax my ey = true ->
  SFcompare (S754_finite sx mx ex) (S754_finite sy my ey)
  = Some (cond_Zopp sx (Zpos mx * 2 ^ (ex - Z.min ex ey))
          ?= cond_Zopp sy (Zpos my * 2 ^ (ey - Z.min ex ey))).
Proof.
  intros Hx Hy. pose proof (aligned_compare mx ex my ey Hx Hy) as H.
  assert (0 < 2 ^ (ex - Z.min ex ey)) by (apply Z.pow_pos_nonneg; lia).
  assert (0 < 2 ^ (ey - Z.min ex ey)) by (apply Z.pow_pos_nonneg; lia).
  simpl SFcompare. change (Pos.compare_cont Eq mx my) with (mx ?= my)%positive.
  destruct sx, sy; simpl cond_Zopp; f_equal.
  - rewrite Z.compare_opp.
    rewrite (Z.compare_antisym (Zpos mx * 2 ^ (ex - Z.min ex ey))
               (Zpos my * 2 ^ (ey - Z.min ex ey))), <- H.
    now destruct (ex ?= ey).
  - symmetry. apply Z.compare_lt_iff. nia.
  - symmetry. apply Z.compare_gt_iff. nia.
  - exact H.
Qed.

Lemma ltb_zero_rounded s x :
  rounded s x -> is_zero x = false -> ltb x zero = s.
Proof.
  destruct x as [s'|s'| |s' m e]; simpl; try easy.
  - intros -> _. now destruct s.
  - intros [-> _] _. now destruct s.
Qed.

Lemma sub_sign a b :
  well_formed a -> well_formed b -> ltb (sub a b) zero = ltb a b.
Proof.
  intros [Fa Va] [Fb Vb].
  destruct a as [sa|sa| |sa ma ea], b as [sb|sb| |sb mb eb];
    try discriminate.
  - now destruct sa, sb.
  - now destruct sb.
  - reflexivity.
  - simpl in Va, Vb. unfold sub, SFsub.
    pose proof (shl_align_spec ma ea (Z.min ea eb)) as [_ Ha].
    pose proof (shl_align_spec mb eb (Z.min ea eb)) as [_ Hb].
    rewrite Ha, Hb.
    replace (Z.min ea (Z.min ea eb)) with (Z.min ea eb) by lia.
    replace (Z.min eb (Z.min ea eb)) with (Z.min ea eb) by lia.
    unfold ltb at 2. unfold SFltb. rewrite (compare_finite _ _ _ _ _ _ Va Vb).
    set (A := cond_Zopp sa (Zpos ma * 2 ^ (ea - Z.min ea eb))).
    set (B := cond_Zopp sb (Zpos mb * 2 ^ (eb - Z.min ea eb))).
    assert (Hmin : emin <= Z.min ea eb).
    { apply bounded_canonical in Va, Vb.
      rewrite fexp_eq in Va, Vb. rewrite emin_eq. lia. }
    destruct (Z.eq_dec (A - B) 0) as [E|E].
    + rewrite E. simpl. replace (A ?= B) with Eq; [reflexivity|].
      symmetry. apply Z.compare_eq_iff. lia.
    + destruct (binary_normalize_spec (A - B) (Z.min ea eb) E Hmin) as [Hr Hz].
      rewrite (ltb_zero_rounded _ _ Hr Hz).
      destruct (Z.compare_spec A B); destruct (Z.ltb_spec (A - B) 0);
        try reflexivity; lia.
Qed.

End JSNumberFacts.

(** ** The sort is a rearrangement *)

Section SortFacts.
Context {A : Type} (comparefn : A -> A -> number).

Lemma sort_insert_Permutation x l :
  Permutation (sort_insert comparefn x l) (x :: l).
Proof.
  induction l as [|y l IH]; simpl; [easy|].
  destruct (comes_before comparefn y x); [|easy].
  rewrite IH. apply perm_swap.
Qed.

Lemma sort_Permutation l : Permutation (sort comparefn l) l.
Proof.
  induction l as [|x l IH]; simpl; [easy|].
  rewrite sort_insert_Permutation. now constructor.
Qed.
End SortFacts.

Lemma In_pipeline listingRows climateRows row :
  In row (pipeline listingRows climateRows) <->
  exists r,
    In r (JSMap.values (build_bestByApn (build_cleaned listingRows)))
    /\ row = enrich_row (build_climateIndex climateRows) r.
Proof.
  unfold pipeline.
  rewrite (Permutation_in' (eq_refl row) (sort_Permutation by_price _)).
  rewrite build_enriched_map, in_map_iff.
  split; intros (r & H1 & H2); exists r; split; congruence.
Qed.

(** ** The climate index *)

Lemma climateIndex_skip climateRows climateIndex k :
  (forall c, In c climateRows -> normalizeApn (Climate.apn c) <> k) ->
  JSMap.get (fold_left climateIndex_step climateRows climateIndex) k
  = JSMap.get climateIndex k.
Proof.
  revert climateIndex.
  induction climateRows as [|c l IH]; intros climateIndex H; simpl; [easy|].
  rewrite IH by (intros; apply H; now right).
  unfold climateIndex_step.
  destruct (is_empty (normalizeApn (Climate.apn c))); [easy|].
  apply JSMapFacts.get_set_ne. apply H. now left.
Qed.

Lemma climateIndex_no_empty_key climateRows climateIndex :
  JSMap.get climateIndex "" = None ->
  JSMap.get (fold_left climateIndex_step climateRows climateIndex) "" = None.
Proof.
  revert climateIndex.
  induction climateRows as [|c l IH]; intros climateIndex H; simpl; [easy|].
  apply IH. unfold climateIndex_step.
  destruct (is_empty (normalizeApn (Climate.apn c))) eqn:E; [easy|].
  rewrite JSMapFacts.get_set_ne; [easy|].
  intros Heq. rewrite Heq in E. discriminate.
Qed.

Lemma climateIndex_last before c after :
  normalizeApn (Climate.apn c) <> "" ->
  (forall c', In c' after ->
              normalizeApn (Climate.apn c') <> normalizeApn (Climate.apn c)) ->
  JSMap.get (build_climateIndex (before ++ c :: after))
    (normalizeApn (Climate.apn c))
  = Some (climate_entry c).
Proof.
  intros Hne Hafter. unfold build_climateIndex.
  rewrite fold_left_app. simpl.
  rewrite climateIndex_skip by exact Hafter.
  unfold climateIndex_step.
  destruct (is_empty (normalizeApn (Climate.apn c))) eqn:E.
  - apply is_empty_true in E. contradiction.
  - apply JSMapFacts.get_set_eq.
Qed.

(** ** Deduplication *)

Section Dedup.
Import JSMap JSMapFacts JSNumberOrder.

Lemma get_keyed (m : JSMap.t Cleaned.t) k r :
  Forall (fun kv => Cleaned.napn (snd kv) = fst kv) m ->
  get m k = Some r -> Cleaned.napn r = k.
Proof.
  induction 1 as [|[k' v'] m Hkv _ IH]; simpl; [easy|].
  destruct (decide (k' = k)) as [<-|_]; [|exact IH].
  intros [= <-]. exact Hkv.
Qed.

Lemma set_keyed (m : JSMap.t Cleaned.t) r :
  Forall (fun kv => Cleaned.napn (snd kv) = fst kv) m ->
  Forall (fun kv => Cleaned.napn (snd kv) = fst kv) (set m (Cleaned.napn r) r).
Proof.
  induction 1 as [|[k' v'] m Hkv Hm IH]; simpl.
  - now repeat constructor.
  - destruct (decide (k' = Cleaned.napn r)); now constructor.
Qed.

Lemma napn_values (m : JSMap.t Cleaned.t) :
  Forall (fun kv => Cleaned.napn (snd kv) = fst kv) m ->
  map Cleaned.napn (values m) = keys m.
Proof.
  induction 1 as [|[k' v'] m Hkv _ IH]; simpl; [easy|].
  simpl in Hkv. unfold values, keys in *. simpl. now rewrite Hkv, IH.
Qed.

Lemma keys_set_NoDup (m : JSMap.t Cleaned.t) k v :
  NoDup (keys m) -> NoDup (keys (set m k v)).
Proof.
  intros Hnd. destruct (get m k) eqn:E.
  - rewrite keys_set_present by congruence. exact Hnd.
  - rewrite keys_set_fresh by exact E. apply NoDup_app. split; [exact Hnd|].
    split; [|apply NoDup_singleton].
    intros x Hx Hk. apply list_elem_of_singleton in Hk. subst x.
    now apply get_None in E.
Qed.

Lemma first_minimum_later cleaned r c :
  first_minimum cleaned r ->
  (Cleaned.napn c = Cleaned.napn r ->
   leb (Cleaned.price r) (Cleaned.price c) = true) ->
  first_minimum (cleaned ++ [c]) r.
Proof.
  intros (before & after & -> & Hb & Ha) Hc.
  exists before, (after ++ [c]). split; [now rewrite <- app_assoc|].
  split; [exact Hb|].
  intros c' Hin. apply in_app_or in Hin. destruct Hin as [Hin|[<-|[]]].
  - now apply Ha.
  - exact Hc.
Qed.

Lemma first_minimum_lower cleaned existing r :
  first_minimum cleaned existing ->
  Cleaned.napn existing = Cleaned.napn r ->
  ltb (Cleaned.price r) (Cleaned.price existing) = true ->
  forall c, In c cleaned -> Cleaned.napn c = Cleaned.napn r ->
            ltb (Cleaned.price r) (Cleaned.price c) = true.
Proof.
  intros (before & after & -> & Hb & Ha) Hk Hlt c Hin Hc.
  apply in_app_or in Hin. destruct Hin as [Hin|[<-|Hin]].
  - apply ltb_trans with (Cleaned.price existing); [exact Hlt|].
    apply Hb; congruence.
  - exact Hlt.
  - apply ltb_leb_trans with (Cleaned.price existing); [exact Hlt|].
    apply Ha; congruence.
Qed.

Lemma first_minimum_In cleaned r : first_minimum cleaned r -> In r cleaned.
Proof.
  intros (before & after & -> & _). apply in_or_app. right. now left.
Qed.

Lemma best_invariant_step cleaned bestByApn r :
  Forall (fun c => isFinite (Cleaned.price c) = true) (cleaned ++ [r]) ->
  best_invariant cleaned bestByApn ->
  best_invariant (cleaned ++ [r]) (bestByApn_step bestByApn r).
Proof.
  intros Hfin [Hnd Hkey Hmin Hcov].
  assert (Hfin' : forall c, In c (cleaned ++ [r]) ->
                            is_nan (Cleaned.price c) = false).
  { intros c Hc. apply isFinite_not_nan.
    now apply (proj1 (List.Forall_forall _ _) Hfin). }
  assert (Hother : forall k r', k <> Cleaned.napn r ->
              get bestByApn k = Some r' -> first_minimum (cleaned ++ [r]) r').
  { intros k r' Hne Hget. apply first_minimum_later; [now apply (Hmin k)|].
    intros Heq. rewrite (get_keyed _ _ _ Hkey Hget) in Heq. congruence. }
  assert (Hset : best_invariant cleaned bestByApn ->
            (forall c, In c cleaned -> Cleaned.napn c = Cleaned.napn r ->
                       ltb (Cleaned.price r) (Cleaned.price c) = true) ->
            best_invariant (cleaned ++ [r]) (set bestByApn (Cleaned.napn r) r)).
  { intros _ Hlow. split.
    - now apply keys_set_NoDup.
    - now apply set_keyed.
    - intros k r' Hget. destruct (decide (Cleaned.napn r = k)) as [<-|Hne].
      + rewrite get_set_eq in Hget. injection Hget as <-.
        exists cleaned, []. split; [easy|]. split; [exact Hlow | intros c []].
      + rewrite get_set_ne in Hget by exact Hne. apply (Hother k); congruence.
    - intros c Hin.
      destruct (decide (Cleaned.napn r = Cleaned.napn c)) as [<-|Hne].
      + now rewrite get_set_eq.
      + rewrite get_set_ne by exact Hne.
        apply in_app_or in Hin. destruct Hin as [Hin|[<-|[]]]; [|easy].
        now apply Hcov. }
  unfold bestByApn_step.
  destruct (get bestByApn (Cleaned.napn r)) as [existing|] eqn:Hget.
  - destruct (ltb (Cleaned.price r) (Cleaned.price existing)) eqn:Hlt.
    + apply Hset; [now split|].
      apply first_minimum_lower with existing; [now apply (Hmin _ _ Hget) | | exact Hlt].
      exact (get_keyed _ _ _ Hkey Hget).
    + split; [exact Hnd | exact Hkey | |].
      * intros k r' Hget'.
        destruct (decide (k = Cleaned.napn r)) as [->|Hne];
          [|now apply (Hother k)].
        apply first_minimum_later; [now apply (Hmin _ _ Hget')|].
        intros _. rewrite Hget in Hget'. injection Hget' as <-.
        apply not_ltb_leb; [| |exact Hlt].
        -- apply Hfin'. apply in_or_app. right. now left.
        -- apply Hfin'. apply in_or_app. left.
           apply first_minimum_In. now apply (Hmin _ _ Hget).
      * intros c Hin. apply in_app_or in Hin.
        destruct Hin as [Hin|[<-|[]]]; [now apply Hcov | congruence].
  - apply Hset; [now split|].
    intros c Hin Heq. apply Hcov in Hin. congruence.
Qed.

Lemma best_invariant_build cleaned :
  Forall (fun c => isFinite (Cleaned.price c) = true) cleaned ->
  best_invariant cleaned (build_bestByApn cleaned).
Proof.
  induction cleaned as [|r cleaned IH] using rev_ind; intros Hfin.
  - split; simpl; [apply NoDup_nil_2 | constructor | easy | easy].
  - unfold build_bestByApn. rewrite fold_left_app. simpl.
    apply best_invariant_step; [exact Hfin|].
    apply IH. apply Forall_app in Hfin. tauto.
Qed.

End Dedup.

(** ** The sort by price *)

Section SortByPrice.
Import JSNumberOrder JSNumberFacts.

Local Abbreviation wf := well_priced.

Lemma comes_before_by_price a b :
  wf a -> wf b ->
  comes_before by_price a b = ltb (Enriched.price a) (Enriched.price b).
Proof. intros Ha Hb. unfold comes_before, by_price. now apply sub_sign. Qed.

Lemma wf_not_nan a : wf a -> is_nan (Enriched.price a) = false.
Proof. intros [H _]. now apply isFinite_not_nan. Qed.

Lemma sort_insert_sorted x l :
  wf x -> Forall wf l -> StronglySorted price_le l ->
  StronglySorted price_le (sort_insert by_price x l).
Proof.
  intros Hx Hl Hs. induction l as [|y l IH]; simpl.
  - repeat constructor.
  - inversion Hl as [|? ? Hy Hl']; subst.
    inversion Hs as [|? ? Hs' Hyl]; subst.
    rewrite comes_before_by_price by assumption.
    destruct (ltb (Enriched.price y) (Enriched.price x)) eqn:E.
    + constructor; [now apply IH|].
      apply (Permutation_Forall
               (Permutation_sym (sort_insert_Permutation by_price x l))).
      constructor; [now apply ltb_leb | exact Hyl].
    + assert (Hxy : price_le x y).
      { apply not_ltb_leb; [now apply wf_not_nan.. | exact E]. }
      constructor; [exact Hs|]. constructor; [exact Hxy|].
      apply (List.Forall_impl (P := price_le y)); [|exact Hyl].
      intros z Hz. unfold price_le in *.
      now apply leb_trans with (Enriched.price y).
Qed.

Lemma sort_wf l : Forall wf l -> Forall wf (sort by_price l).
Proof.
  apply Permutation_Forall, Permutation_sym, sort_Permutation.
Qed.

Lemma sort_sorted l :
  Forall wf l -> StronglySorted price_le (sort by_price l).
Proof.
  induction 1 as [|x l Hx Hl IH]; simpl; [constructor|].
  apply sort_insert_sorted; [exact Hx | now apply sort_wf | exact IH].
Qed.

Lemma sort_insert_priced p x l :
  wf x -> Forall wf l ->
  priced p (sort_insert by_price x l) = priced p (x :: l).
Proof.
  intros Hx Hl. induction Hl as [|y l Hy Hl IH]; [reflexivity|].
  simpl sort_insert. rewrite comes_before_by_price by assumption.
  destruct (ltb (Enriched.price y) (Enriched.price x)) eqn:E; [|reflexivity].
  unfold priced in *. simpl in *. rewrite IH.
  destruct (eqb (Enriched.price x) p) eqn:Ex; [|reflexivity].
  now rewrite (ltb_not_eqb _ _ _ E Ex).
Qed.

Lemma sort_priced p l :
  Forall wf l -> priced p (sort by_price l) = priced p l.
Proof.
  induction 1 as [|x l Hx Hl IH]; [reflexivity|].
  simpl sort. rewrite sort_insert_priced by (try apply sort_wf; assumption).
  unfold priced in *. simpl. now rewrite IH.
Qed.

Lemma kept_price_well_formed r :
  kept r = true -> well_formed (Cleaned.price (clean_row r)).
Proof.
  unfold kept, incomplete. rewrite andb_true_iff, negb_true_iff.
  rewrite !orb_false_iff, !negb_false_iff. intros [[[_ Hp] _] _].
  now apply num_well_formed.
Qed.

Lemma cleaned_well_formed listingRows :
  Forall (fun c => well_formed (Cleaned.price c)) (build_cleaned listingRows).
Proof.
  rewrite build_cleaned_filter. apply List.Forall_forall. intros c Hc.
  apply in_map_iff in Hc. destruct Hc as (r & <- & Hr).
  apply list_elem_of_In, list_elem_of_filter in Hr.
  now apply kept_price_well_formed.
Qed.

Lemma retained_In cleaned r :
  Forall (fun c => isFinite (Cleaned.price c) = true) cleaned ->
  In r (JSMap.values (build_bestByApn cleaned)) -> In r cleaned.
Proof.
  intros Hfin Hin.
  destruct (best_invariant_build cleaned Hfin) as [Hnd _ Hmin _].
  apply JSMapFacts.In_values in Hin; [|exact Hnd].
  destruct Hin as [k Hk]. eapply first_minimum_In, Hmin, Hk.
Qed.

Lemma enriched_well_formed listingRows climateRows :
  Forall wf (build_enriched (build_climateIndex climateRows)
               (build_bestByApn (build_cleaned listingRows))).
Proof.
  pose proof (cleaned_well_formed listingRows) as Hwf.
  rewrite build_enriched_map. apply List.Forall_forall. intros row Hrow.
  apply in_map_iff in Hrow. destruct Hrow as (r & <- & Hr).
  apply retained_In in Hr.
  - exact (proj1 (List.Forall_forall _ _) Hwf r Hr).
  - apply (List.Forall_impl (P := fun c => well_formed (Cleaned.price c)));
      [|exact Hwf].
    now intros c [Hc _].
Qed.

End SortByPrice.

(** ** The derived price per area *)

Section PricePerSqft.
Import JSNumberFacts.

Lemma Math_round_not_nan x : is_nan x = false -> is_nan (Math_round x) = false.
Proof.
  destruct x as [s|s| |s m e]; simpl; try easy. intros _.
  destruct (0 <=? e)%Z; [reflexivity|].
  destruct (_ =? 0)%Z eqn:E; [reflexivity|].
  apply Z.eqb_neq in E.
  destruct (binary_normalize_spec _ 0 E) as [Hr _]; [now rewrite emin_eq|].
  exact (rounded_not_nan _ _ Hr).
Qed.

Lemma div_finite_not_nan x y :
  isFinite x = true -> isFinite y = true -> is_zero y = false ->
  is_nan (div x y) = false.
Proof.
  destruct x as [sx|sx| |sx mx ex], y as [sy|sy| |sy my ey]; try easy.
  intros _ _ _. unfold div, SFdiv.
  pose proof (div_core_spec mx ex my ey) as [H1 H2].
  destruct (SFdiv_core_binary prec emax (Zpos mx) ex (Zpos my) ey)
    as [[mz ez] lz]. simpl in H1, H2.
  destruct (binary_round_aux_spec (xorb sx sy) mz ez lz H1 H2) as [Hr _].
  exact (rounded_not_nan _ _ Hr).
Qed.

Lemma div_by_zero x y :
  isFinite x = true -> is_zero y = true ->
  div x y = if is_zero x then NaN
            else S754_infinity (xorb (ltb x zero) (match y with
                                                  | S754_zero s => s
                                                  | _ => false
                                                  end)).
Proof.
  destruct x as [sx|sx| |sx mx ex], y as [sy|sy| |sy my ey]; try easy.
  intros _ _. simpl. now destruct sx.
Qed.

End PricePerSqft.

(** ** The value that [Math.round] returns *)

Section MathRound.
Import JSNumberFacts.
Local Open Scope Z_scope.

Lemma binary_round_small s p :
  Zpos p < 2 ^ 53 ->
  exists m e,
    binary_round prec emax s p 0 = S754_finite s m e
    /\ e <= 0 /\ Zpos m = Zpos p * 2 ^ (- e).
Proof.
  intros Hp.
  pose proof (Zdigits2_bounds (Zpos p) eq_refl) as Hb.
  set (d := Zdigits2 (Zpos p)) in *.
  assert (Hd1 : 1 <= d) by (unfold d; simpl; lia).
  assert (Hd : d <= 53).
  { destruct (Z_le_gt_dec d 53) as [H|H]; [exact H|].
    assert (2 ^ 53 <= 2 ^ (d - 1)) by (apply Z.pow_le_mono_r; lia). lia. }
  unfold binary_round.
  change (Zpos (digits2_pos p)) with d.
  pose proof (shl_align_spec p 0 (SpecFloat.fexp prec emax (d + 0))) as [H1 H2].
  destruct (shl_align p 0 (SpecFloat.fexp prec emax (d + 0))) as [mz ez].
  simpl fst in H2. simpl snd in H1. rewrite fexp_eq in H1, H2.
  assert (Hez : ez = d - 53) by lia. 
  replace (0 - Z.min 0 (Z.max (d + 0 - 53) (-1074))) with (53 - d) in H2 by lia.
  assert (Hdz : Zdigits2 (Zpos mz) = 53).
  { rewrite H2, Zdigits2_mul_pow2 by lia. fold d. lia. }
  assert (Hshift : SpecFloat.fexp prec emax (Zdigits2 (Zpos mz) + ez) - ez = 0).
  { rewrite Hdz, fexp_eq. lia. }
  exists mz, ez. split; [|split; [lia|]].
  - unfold binary_round_aux, shr_fexp. rewrite Hshift. simpl.
    change (Zpos (digits2_pos mz)) with (Zdigits2 (Zpos mz)).
    rewrite Hshift. simpl.
    replace (ez <=? emax - prec) with true; [reflexivity|].
    symmetry. apply Z.leb_le. unfold emax, prec. lia.
  - rewrite H2. f_equal. f_equal. lia.
Qed.

Lemma binary_round_integer s p :
  Zpos p <= 2 ^ 53 ->
  exists m e,
    binary_round prec emax s p 0 = S754_finite s m e
    /\ Zpos m * 2 ^ Z.max 0 e = Zpos p * 2 ^ Z.max 0 (- e).
Proof.
  intros Hp. destruct (Z.eq_dec (Zpos p) (2 ^ 53)) as [E|E].
  - assert (p = 9007199254740992%positive) by (apply Pos2Z.inj; exact E).
    subst p. exists 4503599627370496%positive, 1. split; reflexivity.
  - destruct (binary_round_small s p) as (m & e & H & He & Hm); [lia|].
    exists m, e. split; [exact H|].
    rewrite Z.max_l, Z.max_r by lia. simpl (2 ^ 0). lia.
Qed.

Lemma bounded_mantissa m e :
  bounded prec emax m e = true -> Zpos m < 2 ^ 53.
Proof.
  intros H. apply bounded_canonical in H. rewrite fexp_eq in H.
  pose proof (Zdigits2_bounds (Zpos m) eq_refl) as [_ Hb].
  apply Z.lt_le_trans with (2 ^ Zdigits2 (Zpos m)); [exact Hb|].
  apply Z.pow_le_mono_r; lia.
Qed.

Lemma Math_round_value x :
  valid_binary prec emax x = true -> isFinite x = true ->
  exists n,
    nearest_half_up x n /\ has_value (Math_round x) n
    /\ valid_binary prec emax (Math_round x) = true
    /\ sign (Math_round x) = sign x.
Proof.
  intros Hv Hf. destruct x as [s|s| |s m e]; try discriminate.
  - exists 0. repeat split; simpl; lia.
  - simpl in Hv. pose proof (bounded_mantissa m e Hv) as Hm.
    unfold Math_round. destruct (0 <=? e) eqn:He.
    + apply Z.leb_le in He.
      exists (cond_Zopp s (Zpos m) * 2 ^ e).
      unfold nearest_half_up, has_value.
      cbn [numerator denominator isFinite sign valid_binary].
      rewrite (Z.max_r 0 e), (Z.max_l 0 (- e)) by lia. simpl (2 ^ 0).
      repeat split; try lia. exact Hv.
    + apply Z.leb_gt in He.
      set (d := 2 ^ (- e)). set (M := cond_Zopp s (Zpos m)).
      assert (Hd : 2 <= d).
      { change 2 with (2 ^ 1). apply Z.pow_le_mono_r; lia. }
      set (n := (2 * M + d) / (2 * d)).
      assert (Hn : 2 * d * n <= 2 * M + d < 2 * d * (n + 1)).
      { unfold n. pose proof (Z.mul_div_le (2 * M + d) (2 * d)).
        pose proof (Z.mul_succ_div_gt (2 * M + d) (2 * d)). lia. }
      assert (HM : - 2 ^ 53 < M < 2 ^ 53) by (unfold M; destruct s; simpl; lia).
      assert (Hnear : nearest_half_up (S754_finite s m e) n).
      { unfold nearest_half_up. cbn [numerator denominator isFinite]. fold M.
        rewrite (Z.max_l 0 e), (Z.max_r 0 (- e)) by lia. simpl (2 ^ 0). fold d.
        split; [reflexivity | nia]. }
      exists n. split; [exact Hnear|].
      destruct (n =? 0) eqn:En.
      * apply Z.eqb_eq in En. rewrite En. repeat split; simpl; lia.
      * apply Z.eqb_neq in En.
        assert (Hsign : (n <? 0) = s).
        { destruct s; unfold M in *; simpl in *.
          - apply Z.ltb_lt. nia.
          - apply Z.ltb_ge. nia. }
        assert (Hbound : Z.abs n <= 2 ^ 53) by nia.
        destruct (binary_normalize_spec n 0 En) as [Hr _];
          [now rewrite emin_eq|].
        rewrite Hsign in Hr.
        destruct n as [|p|p]; [easy| |]; simpl binary_normalize in *.
        -- destruct (binary_round_integer false p) as (m' & e' & H & Hval);
             [simpl in Hbound; lia|].
           rewrite H in *. simpl in Hr. destruct Hr as [<- Hb].
           unfold has_value. simpl. repeat split; [exact Hval | exact Hb].
        -- destruct (binary_round_integer true p) as (m' & e' & H & Hval);
             [simpl in Hbound; lia|].
           rewrite H in *. simpl in Hr. destruct Hr as [<- Hb].
           unfold has_value. simpl. repeat split; [|exact Hb].
           change (Zneg m') with (- Zpos m'). change (Zneg p) with (- Zpos p).
           lia.
Qed.

Lemma Math_round_not_finite x : isFinite x = false -> Math_round x = x.
Proof. now destruct x. Qed.

Lemma div_valid x y :
  valid_binary prec emax (div x y) = true.
Proof.
  destruct x as [sx|sx| |sx mx ex], y as [sy|sy| |sy my ey]; try reflexivity.
  unfold div, SFdiv.
  pose proof (div_core_spec mx ex my ey) as [H1 H2].
  destruct (SFdiv_core_binary prec emax (Zpos mx) ex (Zpos my) ey)
    as [[mz ez] lz]. simpl in H1, H2.
  destruct (binary_round_aux_spec (xorb sx sy) mz ez lz H1 H2) as [Hr _].
  exact (rounded_valid _ _ Hr).
Qed.

End MathRound.

(** * Properties of the pipeline *)

(** ** C1: deduplication *)

(** C1. For candidates that passed the filter, so that every price is
    finite, the rows that the deduplication retains have pairwise
    distinct normalized apns, every normalized apn of a candidate is the
    one of a retained row, and each retained row is, among the
    candidates of its normalized apn, the first one of the lowest
    price. *)
Theorem dedup_keeps_first_minimum (cleaned : list Cleaned.t) :
  Forall (fun c => isFinite (Cleaned.price c) = true) cleaned ->
  let retained := JSMap.values (build_bestByApn cleaned) in
  NoDup (map Cleaned.napn retained)
  /\ (forall c, In c cleaned ->
                exists r, In r retained /\ Cleaned.napn r = Cleaned.napn c)
  /\ (forall r, In r retained -> first_minimum cleaned r).
Proof.
  intros Hfin retained.
  destruct (best_invariant_build cleaned Hfin) as [Hnd Hkey Hmin Hcov].
  split; [|split].
  - unfold retained. now rewrite napn_values.
  - intros c Hin. specialize (Hcov c Hin).
    destruct (JSMap.get (build_bestByApn cleaned) (Cleaned.napn c))
      as [r|] eqn:Hget; [|easy].
    exists r. split.
    + apply JSMapFacts.In_values; eauto.
    + exact (get_keyed _ _ _ Hkey Hget).
  - intros r Hin. apply JSMapFacts.In_values in Hin; [|exact Hnd].
    destruct Hin as [k Hget]. now apply (Hmin k).
Qed.

Lemma dedup_keeps_first_minimum_witness :
  Forall (fun c => isFinite (Cleaned.price c) = true) demo_oak_cleaned
  /\ NoDup (map Cleaned.napn (JSMap.values (build_bestByApn demo_oak_cleaned)))
  /\ (forall c, In c demo_oak_cleaned ->
        exists r, In r (JSMap.values (build_bestByApn demo_oak_cleaned))
                  /\ Cleaned.napn r = Cleaned.napn c)
  /\ (forall r, In r (JSMap.values (build_bestByApn demo_oak_cleaned)) ->
        first_minimum demo_oak_cleaned r).
Proof.
  assert (Hfin : Forall (fun c => isFinite (Cleaned.price c) = true)
                   demo_oak_cleaned).
  { repeat constructor. }
  split; [exact Hfin|].
  exact (dedup_keeps_first_minimum demo_oak_cleaned Hfin).
Defined.

(** On a tie the earlier row stays: two rows of one parcel at the same
    price, told apart by their address. *)
Example dedup_tie_first_wins :
  let first := clean_row {| Listing.apn := "1-2"; Listing.address := "first";
                 Listing.city := ""; Listing.state := ""; Listing.zip := "1";
                 Listing.price := "500"; Listing.beds := None;
                 Listing.baths := None; Listing.sqft := "10";
                 Listing.status := "sold" |} in
  let second := clean_row {| Listing.apn := "12"; Listing.address := "second";
                 Listing.city := ""; Listing.state := ""; Listing.zip := "1";
                 Listing.price := "5e2"; Listing.beds := None;
                 Listing.baths := None; Listing.sqft := "10";
                 Listing.status := "sold" |} in
  JSMap.values (build_bestByApn [first; second]) = [first].
Proof. vm_compute. reflexivity. Qed.

(** ** C2: the filter *)

(** C2. The loop over the listing rows either leaves [cleaned] as it is
    or pushes the row; it leaves it as it is exactly when the normalized
    apn, the address or the zip is empty, the coerced price or the
    coerced sqft is not finite, or the lower-cased status is not an
    allowed one. A row whose status is "Pending" and that passes the
    other tests is pushed, with status "pending", which is the status of
    the output row made from it. *)
Theorem filter_drops_exactly (cleaned : list Cleaned.t) (r : Listing.t) :
  (cleaned_step cleaned r = cleaned
   \/ cleaned_step cleaned r = cleaned ++ [clean_row r])
  /\ (cleaned_step cleaned r = cleaned <->
      normalizeApn (Listing.apn r) = "" \/ Listing.address r = ""
      \/ Listing.zip r = ""
      \/ isFinite (num (Listing.price r)) = false
      \/ isFinite (num (Listing.sqft r)) = false
      \/ toLowerCase (Listing.status r) ∉ allowedStatuses)
  /\ (Listing.status r = "Pending" -> incomplete r = false ->
      cleaned_step cleaned r = cleaned ++ [clean_row r]
      /\ forall climateIndex,
          Enriched.status (enrich_row climateIndex (clean_row r)) = "pending").
Proof.
  rewrite cleaned_step_kept. split; [|split].
  - destruct (kept r); [right | left]; [easy | apply app_nil_r].
  - rewrite <- kept_false_iff. destruct (kept r); split; intros H.
    + now apply push_neq in H.
    + discriminate.
    + reflexivity.
    + apply app_nil_r.
  - intros Hs Hi. unfold kept. simpl. rewrite Hi, Hs. simpl. split; reflexivity.
Qed.

Lemma filter_drops_exactly_witness :
  Listing.status pending_row = "Pending" /\ incomplete pending_row = false
  /\ cleaned_step [] pending_row = [clean_row pending_row]
  /\ forall climateIndex,
      Enriched.status (enrich_row climateIndex (clean_row pending_row)) = "pending".
Proof.
  split; [reflexivity|]. split; [vm_compute; reflexivity|].
  apply (proj2 (proj2 (filter_drops_exactly [] pending_row)));
    [reflexivity | vm_compute; reflexivity].
Defined.

(** ** C3: rain values that are not numbers *)

(** C3, as the code has it. Let a climate row be the last one of its
    normalized apn, which is not empty, and take the output row of a
    candidate with that normalized apn. When the [avg_rain_inches] of
    the climate row is present, not empty and not the text of a finite
    number, it is stored as [NaN] and the [avg_rain_inches] of the
    output row is [NaN], not [null]. When it is the text of a finite
    number, the output row has that number. The output row has [null]
    exactly when the value of the climate row is absent or empty. *)
Theorem unparsable_rain_is_NaN (before after : list Climate.t)
    (c : Climate.t) (r : Cleaned.t) :
  normalizeApn (Climate.apn c) <> "" ->
  (forall c', In c' after ->
              normalizeApn (Climate.apn c') <> normalizeApn (Climate.apn c)) ->
  Cleaned.napn r = normalizeApn (Climate.apn c) ->
  let rain :=
    Enriched.avg_rain_inches
      (enrich_row (build_climateIndex (before ++ c :: after)) r) in
  (forall v,
      Climate.avg_rain_inches c = Some v -> v <> "" ->
      isFinite (StringToNumber v) = false ->
      ClimateEntry.avg_rain_inches (climate_entry c) = Some NaN
      /\ rain = Some NaN)
  /\ (forall v,
      Climate.avg_rain_inches c = Some v -> v <> "" ->
      isFinite (StringToNumber v) = true ->
      rain = Some (StringToNumber v))
  /\ (rain = None <->
      Climate.avg_rain_inches c = None \/ Climate.avg_rain_inches c = Some "").
Proof.
  intros Hk Hafter Hr rain.
  assert (Hrain : rain = ClimateEntry.avg_rain_inches (climate_entry c)).
  { unfold rain, enrich_row. simpl. rewrite Hr.
    now rewrite climateIndex_last. }
  rewrite Hrain. unfold climate_entry. simpl. split; [|split].
  - intros v Hv Hne Hnf. rewrite Hv.
    destruct (String.eqb_spec v ""); [contradiction|].
    unfold num. rewrite Hnf. split; reflexivity.
  - intros v Hv Hne Hf. rewrite Hv.
    destruct (String.eqb_spec v ""); [contradiction|].
    unfold num. now rewrite Hf.
  - destruct (Climate.avg_rain_inches c) as [v|]; [|tauto].
    destruct (String.eqb_spec v "") as [->|Hne].
    + split; [now right | reflexivity].
    + split; [discriminate|]. intros [H|H]; [discriminate|].
      injection H as ->. contradiction.
Qed.

Lemma unparsable_rain_is_NaN_witness :
  let c := {| Climate.apn := "1234567890"; Climate.flood_zone := Some "AE";
              Climate.avg_rain_inches := Some "abc" |} in
  let r := clean_row {| Listing.apn := "12-34-567890";
                        Listing.address := "12 Oak St";
                        Listing.city := "Orlando"; Listing.state := "FL";
                        Listing.zip := "32801"; Listing.price := "440000";
                        Listing.beds := Some "3"; Listing.baths := Some "2";
                        Listing.sqft := "1600"; Listing.status := "for_sale" |} in
  ClimateEntry.avg_rain_inches (climate_entry c) = Some NaN
  /\ Enriched.avg_rain_inches (enrich_row (build_climateIndex ([] ++ c :: [])) r)
     = Some NaN.
Proof.
  intros c r.
  assert (Hk : normalizeApn (Climate.apn c) <> "")
    by (vm_compute; discriminate).
  assert (Hafter : forall c', In c' [] ->
            normalizeApn (Climate.apn c') <> normalizeApn (Climate.apn c))
    by (intros c' []).
  assert (Hr : Cleaned.napn r = normalizeApn (Climate.apn c))
    by (vm_compute; reflexivity).
  apply (proj1 (unparsable_rain_is_NaN [] [] c r Hk Hafter Hr) "abc").
  - reflexivity.
  - discriminate.
  - vm_compute. reflexivity.
Defined.

(** The value is not [null]: the listing "12-34-567890" joined to the
    climate row "1234567890,AE,abc" gets [NaN]. *)
Lemma rain_null_counterexample :
  exists row,
    enrichListings [oak_record] [oak_climate_bad_rain] = Ok [row]
    /\ oak_climate_bad_rain !! "avg_rain_inches" = Some "abc"
    /\ isFinite (StringToNumber "abc") = false
    /\ Enriched.flood_zone row = Some "AE"
    /\ Enriched.avg_rain_inches row = Some NaN
    /\ Enriched.avg_rain_inches row <> None.
Proof.
  eexists. split; [vm_compute; reflexivity|].
  repeat split; try (vm_compute; reflexivity). vm_compute. discriminate.
Qed.

(** ** C4: the price per area *)

(** C4, as the code has it. Computing [price_per_sqft] never throws.
    For a row that passes the filter the price and the area are finite,
    and the area may be zero: then [price_per_sqft] is [NaN] when the
    price is zero too, and an infinity otherwise. When the area is not
    zero, [price_per_sqft] is not [NaN]. *)
Theorem price_per_sqft_of_kept_row (r : Listing.t)
    (climateIndex : JSMap.t ClimateEntry.t) :
  kept r = true ->
  let price := Cleaned.price (clean_row r) in
  let sqft := Cleaned.sqft (clean_row r) in
  let price_per_sqft :=
    Enriched.price_per_sqft (enrich_row climateIndex (clean_row r)) in
  isFinite price = true /\ isFinite sqft = true
  /\ (is_zero sqft = true -> is_zero price = true -> price_per_sqft = NaN)
  /\ (is_zero sqft = true -> is_zero price = false ->
      exists s, price_per_sqft = S754_infinity s)
  /\ (is_zero sqft = false -> is_nan price_per_sqft = false).
Proof.
  intros Hk price sqft price_per_sqft.
  assert (Hfin : isFinite price = true /\ isFinite sqft = true).
  { unfold kept, incomplete in Hk.
    rewrite andb_true_iff, negb_true_iff in Hk.
    rewrite !orb_false_iff, !negb_false_iff in Hk. tauto. }
  destruct Hfin as [Hp Hs]. split; [exact Hp|]. split; [exact Hs|].
  unfold price_per_sqft.
  change (Enriched.price_per_sqft (enrich_row climateIndex (clean_row r)))
    with (Math_round (div price sqft)).
  split; [|split].
  - intros Hz Hpz. rewrite (div_by_zero _ _ Hp Hz), Hpz. reflexivity.
  - intros Hz Hpz. rewrite (div_by_zero _ _ Hp Hz), Hpz. simpl. eauto.
  - intros Hz. apply Math_round_not_nan. now apply div_finite_not_nan.
Qed.

Lemma price_per_sqft_of_kept_row_witness :
  kept zero_sqft_row = true
  /\ exists s,
      Enriched.price_per_sqft (enrich_row JSMap.empty (clean_row zero_sqft_row))
      = S754_infinity s.
Proof.
  assert (Hk : kept zero_sqft_row = true) by (vm_compute; reflexivity).
  split; [exact Hk|].
  destruct (price_per_sqft_of_kept_row zero_sqft_row JSMap.empty Hk)
    as (_ & _ & _ & Hinf & _).
  apply Hinf; vm_compute; reflexivity.
Defined.

(** [price_per_sqft] is not always finite: the listing "12-34-567890"
    with price "440000" and sqft "0" passes the filter and its
    [price_per_sqft] is plus infinity. *)
Lemma price_per_sqft_finite_counterexample :
  exists row,
    enrichListings [oak_record_zero_sqft] [] = Ok [row]
    /\ Enriched.sqft row = zero
    /\ Enriched.price_per_sqft row = S754_infinity false
    /\ isFinite (Enriched.price_per_sqft row) = false
    /\ is_nan (Enriched.price_per_sqft row) = false.
Proof.
  eexists. split; [vm_compute; reflexivity|].
  repeat split; vm_compute; reflexivity.
Qed.

(** ** C5: the rounded quotient *)

(** C5, as the code has it. In every row that [enrichListings] returns,
    [price_per_sqft] is [Math.round] of the binary64 quotient of the
    [price] and the [sqft] of that same row, the quotient that the
    division of the language computes. When that quotient is [NaN] or
    an infinity, [price_per_sqft] is that quotient. When it is finite,
    [price_per_sqft] is a double of the same sign bit whose value is the
    integer nearest to the quotient, a tie going up. *)
Theorem price_per_sqft_is_rounded_quotient
    (listingsParsed climateParsed : list RawRecord)
    (enriched : list Enriched.t) (row : Enriched.t) :
  enrichListings listingsParsed climateParsed = Ok enriched ->
  In row enriched ->
  let quotient := SFdiv 53 1024 (Enriched.price row) (Enriched.sqft row) in
  Enriched.price_per_sqft row
  = Math_round (div (Enriched.price row) (Enriched.sqft row))
  /\ (isFinite quotient = false -> Enriched.price_per_sqft row = quotient)
  /\ (isFinite quotient = true ->
      exists n,
        nearest_half_up quotient n
        /\ has_value (Enriched.price_per_sqft row) n
        /\ valid_binary 53 1024 (Enriched.price_per_sqft row) = true
        /\ sign (Enriched.price_per_sqft row) = sign quotient).
Proof.
  intros Hok Hin quotient. unfold enrichListings in Hok.
  destruct (map_result ListingSchema_parse listingsParsed) as [ls|];
    simpl in Hok; [|discriminate].
  destruct (map_result ClimateSchema_parse climateParsed) as [cs|];
    simpl in Hok; [|discriminate].
  injection Hok as <-.
  apply In_pipeline in Hin. destruct Hin as [r [_ ->]].
  change (Enriched.price_per_sqft (enrich_row (build_climateIndex cs) r))
    with (Math_round quotient).
  split; [reflexivity|]. split.
  - apply Math_round_not_finite.
  - apply Math_round_value. apply div_valid.
Qed.

Lemma price_per_sqft_is_rounded_quotient_witness :
  exists row n,
    enrichListings [half_record] [] = Ok [row]
    /\ nearest_half_up
         (SFdiv 53 1024 (Enriched.price row) (Enriched.sqft row)) n
    /\ has_value (Enriched.price_per_sqft row) n.
Proof.
  destruct (enrichListings [half_record] []) as [[|row [|]]|] eqn:E;
    try (vm_compute in E; discriminate).
  destruct (price_per_sqft_is_rounded_quotient [half_record] [] [row] row E
              (or_introl eq_refl)) as (Heq & _ & Hfin).
  destruct Hfin as (n & Hn & Hv & _).
  - vm_compute in E. injection E as <-. vm_compute. reflexivity.
  - exists row, n. split; [reflexivity|]. split; assumption.
Defined.

(** The integer nearest to the exact quotient can be another one: for
    the price 101412 and the area 500.8, the double of the area is
    above 500.8 and the exact quotient of the two doubles is below
    202.5, while their binary64 quotient is 202.5 and
    [price_per_sqft] is 203. *)
Lemma exact_quotient_counterexample :
  exists row,
    enrichListings [half_record] [] = Ok [row]
    /\ exact_quotient_rounds_to (Enriched.price row) (Enriched.sqft row) 202
    /\ has_value (Enriched.price_per_sqft row) 203
    /\ ~ has_value (Enriched.price_per_sqft row) 202.
Proof.
  eexists. split; [vm_compute; reflexivity|].
  unfold exact_quotient_rounds_to, has_value.
  cbn [Enriched.price Enriched.sqft Enriched.price_per_sqft isFinite
       numerator denominator cond_Zopp].
  repeat split; try (vm_compute; congruence).
  intros [_ H]. vm_compute in H. discriminate.
Qed.

(** The scenario of the README: two listings of one parcel at 450000
    and 440000, and its climate row. *)
Example demo_oak_row :
  exists row rest,
    enrichListings demo_rows demo_climate = Ok (row :: rest)
    /\ Enriched.price row = StringToNumber "440000"
    /\ Enriched.price_per_sqft row = StringToNumber "275"
    /\ Enriched.flood_zone row = Some "AE"
    /\ Enriched.avg_rain_inches row = Some (StringToNumber "52.1").
Proof. eexists _, _. split; [vm_compute; reflexivity|]. now vm_compute. Qed.

(** ** C6: the left join *)

(** C6. The output has as many rows as there are deduplicated
    candidates; the row made from each candidate is in the output, and
    when the climate index has no entry for the candidate's normalized
    apn, its [flood_zone] and [avg_rain_inches] are both [null]. *)
Theorem left_join_keeps_every_candidate
    (listingRows : list Listing.t) (climateRows : list Climate.t) :
  let climateIndex := build_climateIndex climateRows in
  let bestByApn := build_bestByApn (build_cleaned listingRows) in
  List.length (pipeline listingRows climateRows)
  = List.length (JSMap.values bestByApn)
  /\ forall r,
      In r (JSMap.values bestByApn) ->
      In (enrich_row climateIndex r) (pipeline listingRows climateRows)
      /\ (JSMap.get climateIndex (Cleaned.napn r) = None ->
          Enriched.flood_zone (enrich_row climateIndex r) = None
          /\ Enriched.avg_rain_inches (enrich_row climateIndex r) = None).
Proof.
  intros climateIndex bestByApn. split.
  - unfold pipeline.
    rewrite (Permutation_length (sort_Permutation by_price _)).
    rewrite build_enriched_map. apply length_map.
  - intros r Hin. split.
    + apply In_pipeline. now exists r.
    + intros Hnone. unfold enrich_row. simpl.
      fold climateIndex. now rewrite Hnone.
Qed.

Lemma left_join_keeps_every_candidate_witness :
  exists r,
    In r (JSMap.values (build_bestByApn (build_cleaned [pending_row])))
    /\ In (enrich_row (build_climateIndex []) r) (pipeline [pending_row] [])
    /\ Enriched.flood_zone (enrich_row (build_climateIndex []) r) = None
    /\ Enriched.avg_rain_inches (enrich_row (build_climateIndex []) r) = None.
Proof.
  exists (clean_row pending_row).
  assert (Hin : In (clean_row pending_row)
                  (JSMap.values (build_bestByApn (build_cleaned [pending_row])))).
  { vm_compute. now left. }
  split; [exact Hin|].
  destruct (proj2 (left_join_keeps_every_candidate [pending_row] [])
              (clean_row pending_row) Hin) as [H1 H2].
  split; [exact H1|]. apply H2. reflexivity.
Defined.

(** ** C7: the order of the output *)

(** C7. The output is the list of enriched rows rearranged so that the
    prices never decrease from a row to any later row; and for every
    price, the rows of that price come in the output in the order in
    which the enrichment produced them. *)
Theorem output_sorted_by_price_stable
    (listingRows : list Listing.t) (climateRows : list Climate.t) :
  let enriched :=
    build_enriched (build_climateIndex climateRows)
      (build_bestByApn (build_cleaned listingRows)) in
  let output := pipeline listingRows climateRows in
  StronglySorted price_le output
  /\ Permutation output enriched
  /\ forall p, priced p output = priced p enriched.
Proof.
  intros enriched output.
  pose proof (enriched_well_formed listingRows climateRows) as Hwf.
  split; [|split].
  - now apply sort_sorted.
  - apply sort_Permutation.
  - intros p. now apply sort_priced.
Qed.

(** Two parcels at the same price keep the order of the listings, and
    a cheaper one that comes last in the input comes first. *)
Example sort_keeps_ties_in_order :
  let row apn price :=
    {| Listing.apn := apn; Listing.address := "a"; Listing.city := "";
       Listing.state := ""; Listing.zip := "1"; Listing.price := price;
       Listing.beds := None; Listing.baths := None; Listing.sqft := "10";
       Listing.status := "sold" |} in
  map Enriched.apn (pipeline [row "2" "500"; row "1" "500.0"; row "3" "499"] [])
  = ["3"; "2"; "1"].
Proof. vm_compute. reflexivity. Qed.

(** ** C8: the climate index *)

(** C8. A climate row whose normalized apn is empty leaves the index as
    it is, and the index never has the empty key. A key that no row
    normalizes to is absent. For a row with a non-empty normalized apn
    that no later row shares, the index maps that key to the attributes
    of this row, whatever rows came before it: the last row wins. *)
Theorem climate_index_last_wins (climateRows : list Climate.t) :
  (forall climateIndex c,
      normalizeApn (Climate.apn c) = "" ->
      climateIndex_step climateIndex c = climateIndex)
  /\ JSMap.get (build_climateIndex climateRows) "" = None
  /\ (forall k,
      (forall c, In c climateRows -> normalizeApn (Climate.apn c) <> k) ->
      JSMap.get (build_climateIndex climateRows) k = None)
  /\ (forall before c after,
      climateRows = before ++ c :: after ->
      normalizeApn (Climate.apn c) <> "" ->
      (forall c', In c' after ->
                  normalizeApn (Climate.apn c') <> normalizeApn (Climate.apn c)) ->
      JSMap.get (build_climateIndex climateRows) (normalizeApn (Climate.apn c))
      = Some (climate_entry c)).
Proof.
  repeat split.
  - intros climateIndex c H. unfold climateIndex_step. now rewrite H.
  - now apply climateIndex_no_empty_key.
  - intros k H. unfold build_climateIndex. now rewrite climateIndex_skip.
  - intros before c after -> Hne Hafter. now apply climateIndex_last.
Qed.

Lemma climate_index_last_wins_witness :
  let first := {| Climate.apn := "12-34"; Climate.flood_zone := Some "AE";
                  Climate.avg_rain_inches := Some "52.1" |} in
  let second := {| Climate.apn := "1234"; Climate.flood_zone := Some "X";
                   Climate.avg_rain_inches := Some "61.3" |} in
  let blank := {| Climate.apn := "n/a"; Climate.flood_zone := Some "VE";
                  Climate.avg_rain_inches := None |} in
  climateIndex_step JSMap.empty blank = JSMap.empty
  /\ JSMap.get (build_climateIndex [first; second; blank]) "99" = None
  /\ JSMap.get (build_climateIndex [first; second; blank]) "1234"
     = Some (climate_entry second).
Proof.
  intros first second blank.
  destruct (climate_index_last_wins [first; second; blank])
    as (H1 & _ & H3 & H4).
  split; [apply H1; reflexivity|]. split.
  - apply H3. intros c [<-|[<-|[<-|[]]]]; vm_compute; discriminate.
  - apply (H4 [first] second [blank]); [reflexivity | vm_compute; discriminate |].
    intros c' [<-|[]]. vm_compute. discriminate.
Defined.

(** ** C9: rows that a schema rejects *)

(** C9. When some listing row or some climate row lacks a key that its
    schema requires, [enrichListings] throws: it returns no rows, and
    [process] reports exactly one message and writes no rows of this
    run to the results. When no row lacks a required key,
    [enrichListings] does not throw and [process] stores its rows and
    reports no error. *)
Theorem structural_failure_is_fatal (String_of_error : ZodError -> string)
    (st : UI.state) (listingsParsed climateParsed : list RawRecord) :
  let invalid :=
    (exists r, In r listingsParsed /\ missing ListingSchema_required r <> [])
    \/ (exists r, In r climateParsed /\ missing ClimateSchema_required r <> []) in
  (invalid ->
     exists err,
       enrichListings listingsParsed climateParsed = Err err
       /\ process String_of_error st listingsParsed climateParsed
          = {| UI.results := UI.results st;
               UI.errors := [String_of_error err] |})
  /\ (~ invalid ->
     exists enriched,
       enrichListings listingsParsed climateParsed = Ok enriched
       /\ process String_of_error st listingsParsed climateParsed
          = {| UI.results := enriched; UI.errors := [] |}).
Proof.
  intros invalid. split.
  - intros Hinv.
    assert (exists err, enrichListings listingsParsed climateParsed = Err err)
      as [err Herr].
    { unfold enrichListings. destruct Hinv as [[r [Hin Hm]]|[r [Hin Hm]]].
      - destruct (map_result_Err ListingSchema_parse _ r Hin
                    (ListingSchema_parse_Err r Hm)) as [e ->].
        simpl. now exists e.
      - destruct (map_result ListingSchema_parse listingsParsed) as [ls|e];
          simpl; [|now exists e].
        destruct (map_result_Err ClimateSchema_parse _ r Hin
                    (ClimateSchema_parse_Err r Hm)) as [e ->].
        simpl. now exists e. }
    exists err. split; [easy|]. unfold process. now rewrite Herr.
  - intros Hval.
    assert (exists enriched, enrichListings listingsParsed climateParsed = Ok enriched)
      as [enriched Hok].
    { unfold enrichListings.
      destruct (map_result_Ok ListingSchema_parse listingsParsed) as [ls ->].
      { intros r Hin. apply ListingSchema_parse_Ok.
        destruct (missing ListingSchema_required r) eqn:E; [easy|].
        destruct Hval. left. exists r. split; [easy|]. now rewrite E. }
      destruct (map_result_Ok ClimateSchema_parse climateParsed) as [cs ->].
      { intros r Hin. apply ClimateSchema_parse_Ok.
        destruct (missing ClimateSchema_required r) eqn:E; [easy|].
        destruct Hval. right. exists r. split; [easy|]. now rewrite E. }
      simpl. eauto. }
    exists enriched. split; [easy|]. unfold process. now rewrite Hok.
Qed.

Lemma structural_failure_is_fatal_witness :
  (exists err,
     enrichListings demo_listings demo_climate = Err err
     /\ process (fun _ => "ZodError") {| UI.results := []; UI.errors := [] |}
          demo_listings demo_climate
        = {| UI.results := []; UI.errors := ["ZodError"] |})
  /\ (exists enriched,
     enrichListings demo_rows demo_climate = Ok enriched
     /\ process (fun _ => "ZodError") {| UI.results := []; UI.errors := [] |}
          demo_rows demo_climate
        = {| UI.results := enriched; UI.errors := [] |}).
Proof.
  split.
  - apply (proj1 (structural_failure_is_fatal (fun _ => "ZodError")
                    {| UI.results := []; UI.errors := [] |}
                    demo_listings demo_climate)).
    left. exists demo_short_row. split.
    + unfold demo_listings. apply in_or_app. right. now left.
    + vm_compute. discriminate.
  - apply (proj2 (structural_failure_is_fatal (fun _ => "ZodError")
                    {| UI.results := []; UI.errors := [] |}
                    demo_rows demo_climate)).
    intros [[r [Hin Hm]]|[r [Hin Hm]]]; apply Hm; clear Hm.
    + unfold demo_rows in Hin. simpl in Hin.
      repeat (destruct Hin as [<-|Hin]; [vm_compute; reflexivity|]).
      destruct Hin.
    + unfold demo_climate in Hin. simpl in Hin.
      repeat (destruct Hin as [<-|Hin]; [vm_compute; reflexivity|]).
      destruct Hin.
Defined.

(** ** C10: statuses are not trimmed *)

(** C10. The record whose status is "pending" followed by a space is
    accepted by the schema and dropped by the filter, while the same
    record with status "pending" gives one output row: the status is
    lower-cased, which keeps the space, and then has to be one of the
    three allowed statuses as it is. *)
Theorem untrimmed_status_is_dropped :
  enrichListings [trailing_space_record] [] = Ok []
  /\ (exists row, enrichListings [exact_status_record] [] = Ok [row])
  /\ toLowerCase "pending " = "pending "
  /\ forall cleaned r,
      cleaned_step cleaned r = cleaned ++ [clean_row r] ->
      toLowerCase (Listing.status r) = "for_sale"
      \/ toLowerCase (Listing.status r) = "pending"
      \/ toLowerCase (Listing.status r) = "sold".
Proof.
  split; [vm_compute; reflexivity|].
  split; [eexists; vm_compute; reflexivity|].
  split; [reflexivity|].
  intros cleaned r H. apply kept_allowed.
  rewrite cleaned_step_kept in H. destruct (kept r); [easy|].
  rewrite app_nil_r in H. symmetry in H. now apply push_neq in H.
Qed.

Lemma untrimmed_status_is_dropped_witness :
  toLowerCase (Listing.status pending_row) = "for_sale"
  \/ toLowerCase (Listing.status pending_row) = "pending"
  \/ toLowerCase (Listing.status pending_row) = "sold".
Proof.
  apply (proj2 (proj2 (proj2 untrimmed_status_is_dropped)) [] pending_row).
  vm_compute. reflexivity.
Defined.

(** * Further properties *)

(** ** Parcel numbers *)

Lemma remove_non_digits_app a b :
  remove_non_digits (a +:+ b) = remove_non_digits a +:+ remove_non_digits b.
Proof.
  induction a as [|c a IH]; simpl; [reflexivity|].
  destruct (is_digit c); simpl; now rewrite IH.
Qed.

Lemma normalizeApn_remove s : normalizeApn s = remove_non_digits s.
Proof. now destruct s. Qed.

Lemma remove_non_digits_digits s :
  string_forall is_digit (remove_non_digits s) = true.
Proof.
  induction s as [|c s IH]; simpl; [reflexivity|].
  destruct (is_digit c) eqn:E; simpl; [now rewrite E|exact IH].
Qed.

Lemma remove_non_digits_fixed s :
  string_forall is_digit s = true -> remove_non_digits s = s.
Proof.
  induction s as [|c s IH]; simpl; [reflexivity|].
  rewrite andb_true_iff. intros [-> H]. now rewrite IH.
Qed.

Lemma remove_non_digits_none s :
  string_forall (fun c => negb (is_digit c)) s = true ->
  remove_non_digits s = "".
Proof.
  induction s as [|c s IH]; simpl; [reflexivity|].
  rewrite andb_true_iff, negb_true_iff. intros [-> H]. now apply IH.
Qed.

(** X1. [normalizeApn] returns digits only, returns a string of digits
    as it is, and so changes nothing when it is applied twice; the
    result is never longer than the argument. *)
Theorem normalizeApn_digits_only (apn : string) :
  string_forall is_digit (normalizeApn apn) = true
  /\ (string_forall is_digit apn = true -> normalizeApn apn = apn)
  /\ normalizeApn (normalizeApn apn) = normalizeApn apn
  /\ String.length (normalizeApn apn) <= String.length apn.
Proof.
  rewrite !normalizeApn_remove. split; [apply remove_non_digits_digits|].
  split; [apply remove_non_digits_fixed|]. split.
  - apply remove_non_digits_fixed, remove_non_digits_digits.
  - induction apn as [|c s IH]; simpl; [lia|].
    destruct (is_digit c); simpl; lia.
Qed.

Lemma normalizeApn_digits_only_witness :
  string_forall is_digit "1234567890" = true
  /\ normalizeApn "1234567890" = "1234567890".
Proof.
  split; [reflexivity|].
  apply (proj1 (proj2 (normalizeApn_digits_only "1234567890"))). reflexivity.
Defined.

(** X2. [normalizeApn] of a concatenation is the concatenation of the
    results, and a piece without any digit disappears: two ways of
    writing a parcel number that differ only in such separators give
    the same key. *)
Theorem normalizeApn_ignores_separators (a sep b : string) :
  normalizeApn (a +:+ b) = normalizeApn a +:+ normalizeApn b
  /\ (string_forall (fun c => negb (is_digit c)) sep = true ->
      normalizeApn (a +:+ sep +:+ b) = normalizeApn (a +:+ b)).
Proof.
  rewrite !normalizeApn_remove. split; [apply remove_non_digits_app|].
  intros Hsep. rewrite !remove_non_digits_app.
  now rewrite (remove_non_digits_none sep Hsep).
Qed.

Lemma normalizeApn_ignores_separators_witness :
  normalizeApn ("12" +:+ "-" +:+ "34") = normalizeApn ("12" +:+ "34").
Proof.
  apply (proj2 (normalizeApn_ignores_separators "12" "-" "34")). reflexivity.
Defined.

(** ** The numeric coercion *)

Lemma trimStart_blank v :
  string_forall is_white_space v = true -> trimStart v = "".
Proof.
  induction v as [|c v IH]; simpl; [reflexivity|].
  rewrite andb_true_iff. intros [-> H]. now apply IH.
Qed.

(** X3. [num] of the empty string, or of a string of white space only,
    is the number zero, which is finite: a listing whose price or sqft
    is blank passes the finiteness test of the filter. *)
Theorem num_blank_is_zero (v : string) :
  string_forall is_white_space v = true ->
  num v = zero /\ isFinite (num v) = true.
Proof.
  intros H. unfold num, StringToNumber, trim.
  rewrite (trimStart_blank v H). simpl. split; reflexivity.
Qed.

Lemma num_blank_is_zero_witness :
  num "" = zero /\ isFinite (num "") = true.
Proof. apply (num_blank_is_zero ""). reflexivity. Defined.

(** X4. [num] never returns an infinity: its result is [NaN], or a
    finite number that is a valid double. The text of an infinity is
    coerced to [NaN]. *)
Theorem num_NaN_or_finite (v : string) :
  (num v = NaN \/ well_formed (num v))
  /\ (isFinite (StringToNumber v) = false -> num v = NaN)
  /\ (isFinite (StringToNumber v) = true -> num v = StringToNumber v).
Proof.
  split; [|split].
  - destruct (isFinite (num v)) eqn:E.
    + right. now apply JSNumberFacts.num_well_formed.
    + left. unfold num in *.
      destruct (isFinite (StringToNumber v)) eqn:E'; [congruence | reflexivity].
  - intros H. unfold num. now rewrite H.
  - intros H. unfold num. now rewrite H.
Qed.

Lemma num_NaN_or_finite_witness :
  num "Infinity" = NaN /\ num "52.1" = StringToNumber "52.1".
Proof.
  split.
  - apply (proj1 (proj2 (num_NaN_or_finite "Infinity"))). reflexivity.
  - apply (proj2 (proj2 (num_NaN_or_finite "52.1"))). vm_compute. reflexivity.
Defined.

(** ** The schemas *)

Lemma missing_insert_other keys (r : RawRecord) k v :
  ~ In k keys -> missing keys (<[k := v]> r) = missing keys r.
Proof.
  unfold missing. induction keys as [|k' keys IH]; intros Hk; [reflexivity|].
  rewrite !filter_cons, lookup_insert_ne by (intros ->; apply Hk; now left).
  rewrite IH by (intros H; apply Hk; now right). reflexivity.
Qed.

Lemma ListingSchema_parse_missing (r : RawRecord) :
  missing ListingSchema_required r <> [] ->
  ListingSchema_parse r = Err (Required (missing ListingSchema_required r)).
Proof.
  intros H. pose proof (ListingSchema_parse_Err r H) as Hn.
  unfold ListingSchema_parse in *.
  destruct (r !! "apn"); [|reflexivity].
  destruct (r !! "address"); [|reflexivity].
  destruct (r !! "zip"); [|reflexivity].
  destruct (r !! "price"); [|reflexivity].
  destruct (r !! "sqft"); [|reflexivity].
  destruct (r !! "status"); [|reflexivity].
  now destruct (Hn _ eq_refl).
Qed.

Lemma ClimateSchema_parse_missing (r : RawRecord) :
  missing ClimateSchema_required r <> [] ->
  ClimateSchema_parse r = Err (Required ["apn"]).
Proof.
  intros H. pose proof (ClimateSchema_parse_Err r H) as Hn.
  unfold ClimateSchema_parse in *.
  destruct (r !! "apn") eqn:E; [now destruct (Hn _ eq_refl)|].
  unfold missing, ClimateSchema_required. rewrite filter_cons, decide_True by exact E.
  reflexivity.
Qed.

(** X5. [ListingSchema] accepts a row exactly when the six required
    columns are present, and then returns their values as they are,
    with the empty string for an absent [city] or [state] and
    [undefined] for an absent [beds] or [baths]; otherwise it throws an
    error that lists the required columns that are missing. A column
    that is not one of the ten is ignored. *)
Theorem ListingSchema_accepts (r : RawRecord) :
  (missing ListingSchema_required r = [] ->
   exists row,
     ListingSchema_parse r = Ok row
     /\ r !! "apn" = Some (Listing.apn row)
     /\ r !! "address" = Some (Listing.address row)
     /\ r !! "zip" = Some (Listing.zip row)
     /\ r !! "price" = Some (Listing.price row)
     /\ r !! "sqft" = Some (Listing.sqft row)
     /\ r !! "status" = Some (Listing.status row)
     /\ Listing.city row = default "" (r !! "city")
     /\ Listing.state row = default "" (r !! "state")
     /\ Listing.beds row = r !! "beds"
     /\ Listing.baths row = r !! "baths")
  /\ (missing ListingSchema_required r <> [] ->
      ListingSchema_parse r = Err (Required (missing ListingSchema_required r)))
  /\ (forall k v,
      ~ In k ListingSchema_keys ->
      ListingSchema_parse (<[k := v]> r) = ListingSchema_parse r).
Proof.
  split; [|split].
  - intros H. destruct (ListingSchema_parse_Ok r H) as [row Hrow].
    exists row. split; [exact Hrow|]. unfold ListingSchema_parse in Hrow.
    destruct (r !! "apn"); [|discriminate].
    destruct (r !! "address"); [|discriminate].
    destruct (r !! "zip"); [|discriminate].
    destruct (r !! "price"); [|discriminate].
    destruct (r !! "sqft"); [|discriminate].
    destruct (r !! "status"); [|discriminate].
    injection Hrow as <-. simpl. repeat split; reflexivity.
  - apply ListingSchema_parse_missing.
  - intros k v Hk. unfold ListingSchema_parse.
    rewrite missing_insert_other
      by (intros H; apply Hk; unfold ListingSchema_keys;
          unfold ListingSchema_required in H; simpl in *; tauto).
    rewrite !lookup_insert_ne
      by (intros E; subst k; apply Hk; unfold ListingSchema_keys; simpl; tauto).
    reflexivity.
Qed.

Lemma ListingSchema_accepts_witness :
  ListingSchema_parse no_status_record = Err (Required ["status"])
  /\ ListingSchema_parse (<["notes" := "n"]> demo_short_row)
     = ListingSchema_parse demo_short_row.
Proof.
  split.
  - apply (proj1 (proj2 (ListingSchema_accepts no_status_record))).
    vm_compute. discriminate.
  - apply (proj2 (proj2 (ListingSchema_accepts demo_short_row))).
    unfold ListingSchema_keys. simpl.
    intros H. repeat (destruct H as [H|H]; [discriminate H|]). exact H.
Defined.

(** X6. [ClimateSchema] accepts a row exactly when the column [apn] is
    present, and then returns its value with [flood_zone] and
    [avg_rain_inches] as they are, [undefined] when absent; otherwise it
    throws the error that names [apn]. A column that is not one of the
    three is ignored. *)
Theorem ClimateSchema_accepts (r : RawRecord) :
  (forall apn,
      r !! "apn" = Some apn ->
      ClimateSchema_parse r
      = Ok {| Climate.apn := apn;
              Climate.flood_zone := r !! "flood_zone";
              Climate.avg_rain_inches := r !! "avg_rain_inches" |})
  /\ (r !! "apn" = None -> ClimateSchema_parse r = Err (Required ["apn"]))
  /\ (forall k v,
      ~ In k ClimateSchema_keys ->
      ClimateSchema_parse (<[k := v]> r) = ClimateSchema_parse r).
Proof.
  split; [|split].
  - intros apn H. unfold ClimateSchema_parse. now rewrite H.
  - intros H. apply ClimateSchema_parse_missing.
    unfold missing, ClimateSchema_required.
    rewrite filter_cons, decide_True by exact H. discriminate.
  - intros k v Hk. unfold ClimateSchema_parse.
    rewrite missing_insert_other
      by (intros H; apply Hk; unfold ClimateSchema_keys;
          unfold ClimateSchema_required in H; simpl in *; tauto).
    rewrite !lookup_insert_ne
      by (intros E; subst k; apply Hk; unfold ClimateSchema_keys; simpl; tauto).
    reflexivity.
Qed.

Lemma ClimateSchema_accepts_witness :
  ClimateSchema_parse no_apn_climate_record = Err (Required ["apn"])
  /\ ClimateSchema_parse (<["notes" := "n"]> no_apn_climate_record)
     = ClimateSchema_parse no_apn_climate_record.
Proof.
  split.
  - apply (proj1 (proj2 (ClimateSchema_accepts no_apn_climate_record))).
    reflexivity.
  - apply (proj2 (proj2 (ClimateSchema_accepts no_apn_climate_record))).
    unfold ClimateSchema_keys. simpl.
    intros H. repeat (destruct H as [H|H]; [discriminate H|]). exact H.
Defined.

(** ** Which error is reported *)

Lemma map_result_first_Err {E A B} (f : A -> result E B) good bad rest e :
  (forall a, In a good -> exists b, f a = Ok b) ->
  f bad = Err e ->
  map_result f (good ++ bad :: rest) = Err e.
Proof.
  intros Hgood Hbad. induction good as [|a good IH]; simpl.
  - now rewrite Hbad.
  - destruct (Hgood a (or_introl eq_refl)) as [b ->]. simpl.
    rewrite IH by (intros; apply Hgood; now right). reflexivity.
Qed.

(** X7. The listings are validated before the climate rows, each list
    from its first row on: the error that [enrichListings] throws is the
    one of the first listing row that lacks a required column, whatever
    the climate rows are; the error of the first climate row without
    [apn] is thrown only when every listing row is accepted. *)
Theorem first_invalid_row_is_reported
    (good : list RawRecord) (bad : RawRecord) (rest : list RawRecord) :
  (forall l, In l good -> missing ListingSchema_required l = []) ->
  (missing ListingSchema_required bad <> [] ->
   forall climateParsed,
     enrichListings (good ++ bad :: rest) climateParsed
     = Err (Required (missing ListingSchema_required bad)))
  /\ (forall goodc badc restc,
      missing ListingSchema_required bad = [] ->
      (forall l, In l rest -> missing ListingSchema_required l = []) ->
      (forall c, In c goodc -> missing ClimateSchema_required c = []) ->
      badc !! "apn" = None ->
      enrichListings (good ++ bad :: rest) (goodc ++ badc :: restc)
      = Err (Required ["apn"])).
Proof.
  intros Hgood. split.
  - intros Hbad climateParsed. unfold enrichListings.
    rewrite (map_result_first_Err ListingSchema_parse good bad rest
               (Required (missing ListingSchema_required bad))).
    + reflexivity.
    + intros l Hl. now apply ListingSchema_parse_Ok, Hgood.
    + now apply ListingSchema_parse_missing.
  - intros goodc badc restc Hbad Hrest Hgoodc Hbadc. unfold enrichListings.
    destruct (map_result_Ok ListingSchema_parse (good ++ bad :: rest))
      as [rows ->].
    { intros l Hl. apply ListingSchema_parse_Ok.
      apply in_app_or in Hl. destruct Hl as [Hl|[<-|Hl]]; auto. }
    simpl.
    rewrite (map_result_first_Err ClimateSchema_parse goodc badc restc
               (Required ["apn"])).
    + reflexivity.
    + intros c Hc. now apply ClimateSchema_parse_Ok, Hgoodc.
    + apply ClimateSchema_parse_missing.
      unfold missing, ClimateSchema_required.
      rewrite filter_cons, decide_True by exact Hbadc. discriminate.
Qed.

Lemma first_invalid_row_is_reported_witness :
  enrichListings ([oak_record] ++ no_status_record :: [demo_short_row])
    [no_apn_climate_record]
  = Err (Required ["status"])
  /\ enrichListings ([oak_record] ++ exact_status_record :: [])
       ([] ++ no_apn_climate_record :: [])
     = Err (Required ["apn"]).
Proof.
  assert (Hgood : forall l, In l [oak_record] ->
                            missing ListingSchema_required l = []).
  { intros l [<-|[]]. vm_compute. reflexivity. }
  split.
  - assert (Hm : missing ListingSchema_required no_status_record = ["status"])
      by (vm_compute; reflexivity).
    rewrite <- Hm.
    apply (proj1 (first_invalid_row_is_reported [oak_record] no_status_record
                    [demo_short_row] Hgood)).
    rewrite Hm. discriminate.
  - apply (proj2 (first_invalid_row_is_reported [oak_record] exact_status_record
                    [] Hgood)).
    + vm_compute. reflexivity.
    + intros l [].
    + intros c [].
    + reflexivity.
Defined.

(** ** Where the output rows come from *)

Lemma In_cleaned listingRows c :
  In c (build_cleaned listingRows) <->
  exists r, In r listingRows /\ kept r = true /\ c = clean_row r.
Proof.
  rewrite build_cleaned_filter, in_map_iff. split.
  - intros (r & <- & Hr). apply list_elem_of_In, list_elem_of_filter in Hr.
    destruct Hr as [Hk Hr]. apply list_elem_of_In in Hr. eauto.
  - intros (r & Hr & Hk & ->). exists r. split; [reflexivity|].
    apply list_elem_of_In, list_elem_of_filter. split; [exact Hk|].
    now apply list_elem_of_In.
Qed.

Lemma cleaned_finite listingRows :
  Forall (fun c => isFinite (Cleaned.price c) = true) (build_cleaned listingRows).
Proof.
  apply (List.Forall_impl (P := fun c => well_formed (Cleaned.price c)));
    [|apply cleaned_well_formed].
  now intros c [Hc _].
Qed.

Lemma retained_invariant listingRows :
  best_invariant (build_cleaned listingRows)
    (build_bestByApn (build_cleaned listingRows)).
Proof. apply best_invariant_build, cleaned_finite. Qed.

Lemma In_retained_cleaned listingRows c :
  In c (JSMap.values (build_bestByApn (build_cleaned listingRows))) ->
  exists r, In r listingRows /\ kept r = true /\ c = clean_row r.
Proof.
  intros Hc. apply In_cleaned. apply retained_In; [apply cleaned_finite|exact Hc].
Qed.

Lemma kept_complete r :
  kept r = true ->
  normalizeApn (Listing.apn r) <> "" /\ Listing.address r <> ""
  /\ Listing.zip r <> ""
  /\ isFinite (num (Listing.price r)) = true
  /\ isFinite (num (Listing.sqft r)) = true
  /\ toLowerCase (Listing.status r) ∈ allowedStatuses.
Proof.
  intros Hk. destruct (kept r) eqn:E; [|discriminate].
  pose proof (proj2 (kept_false_iff r)) as H.
  repeat split.
  - intros Hn. rewrite H in E; [discriminate | tauto].
  - intros Hn. rewrite H in E; [discriminate | tauto].
  - intros Hn. rewrite H in E; [discriminate | tauto].
  - destruct (isFinite (num (Listing.price r))) eqn:F; [reflexivity|].
    rewrite H in E; [discriminate | tauto].
  - destruct (isFinite (num (Listing.sqft r))) eqn:F; [reflexivity|].
    rewrite H in E; [discriminate | tauto].
  - destruct (decide (toLowerCase (Listing.status r) ∈ allowedStatuses))
      as [Hin|Hn]; [exact Hin|].
    rewrite H in E; [discriminate | tauto].
Qed.

(** X8. Every output row is made from a listing row that passed the
    filter: its [apn] is that row's [apn] as written, its
    [full_address] is the address, city, state and zip joined by a
    comma and a space, a comma and a space, and a space, its [status]
    is the lower-cased status and is one of the three allowed ones, and
    its [price] and [sqft] are the coerced ones, both finite. *)
Theorem output_rows_come_from_kept_listings
    (listingRows : list Listing.t) (climateRows : list Climate.t)
    (row : Enriched.t) :
  In row (pipeline listingRows climateRows) ->
  exists r,
    In r listingRows /\ kept r = true
    /\ Enriched.apn row = Listing.apn r
    /\ Enriched.full_address row
       = Listing.address r +:+ ", " +:+ Listing.city r +:+ ", "
         +:+ Listing.state r +:+ " " +:+ Listing.zip r
    /\ Enriched.status row = toLowerCase (Listing.status r)
    /\ Enriched.status row ∈ allowedStatuses
    /\ Enriched.price row = num (Listing.price r)
    /\ Enriched.sqft row = num (Listing.sqft r)
    /\ isFinite (Enriched.price row) = true
    /\ isFinite (Enriched.sqft row) = true
    /\ normalizeApn (Enriched.apn row) <> "".
Proof.
  intros Hrow. apply In_pipeline in Hrow. destruct Hrow as (c & Hc & ->).
  apply In_retained_cleaned in Hc. destruct Hc as (r & Hr & Hk & ->).
  destruct (kept_complete r Hk) as (Hn & _ & _ & Hp & Hs & Hst).
  exists r. simpl. repeat split; assumption.
Qed.

Lemma output_rows_come_from_kept_listings_witness :
  exists row r,
    In row (pipeline demo_listing_rows demo_climate_rows)
    /\ In r demo_listing_rows
    /\ Enriched.apn row = Listing.apn r
    /\ Enriched.status row ∈ allowedStatuses.
Proof.
  assert (Hin : In (enrich_row (build_climateIndex demo_climate_rows)
                      (clean_row pending_row))
                  (pipeline demo_listing_rows demo_climate_rows)).
  { vm_compute. right. right. now left. }
  destruct (output_rows_come_from_kept_listings _ _ _ Hin)
    as (r & Hr & _ & Ha & _ & _ & Hs & _).
  eexists _, r. split; [exact Hin|]. split; [exact Hr|]. split; assumption.
Defined.

(** ** One output row per parcel *)

Lemma retained_napn listingRows c :
  In c (JSMap.values (build_bestByApn (build_cleaned listingRows))) ->
  Cleaned.napn c = normalizeApn (Cleaned.apn c).
Proof.
  intros Hc. apply In_retained_cleaned in Hc.
  now destruct Hc as (r & _ & _ & ->).
Qed.

Lemma output_keys listingRows climateRows :
  Permutation
    (map (fun row => normalizeApn (Enriched.apn row))
       (pipeline listingRows climateRows))
    (JSMap.keys (build_bestByApn (build_cleaned listingRows))).
Proof.
  unfold pipeline. rewrite (sort_Permutation by_price _).
  rewrite build_enriched_map, List.map_map. simpl.
  rewrite <- (napn_values _ (best_keyed_by_napn _ _ (retained_invariant listingRows))).
  apply Permutation_refl'. apply map_ext_in.
  intros c Hc. symmetry. now apply retained_napn with listingRows.
Qed.

Lemma length_set {V} (m : JSMap.t V) k v :
  List.length (JSMap.set m k v) <= S (List.length m).
Proof.
  induction m as [|[k' v'] m IH]; simpl; [lia|].
  destruct (decide (k' = k)); simpl; lia.
Qed.

Lemma length_bestByApn cleaned bestByApn :
  List.length (fold_left bestByApn_step cleaned bestByApn)
  <= List.length bestByApn + List.length cleaned.
Proof.
  revert bestByApn. induction cleaned as [|r l IH]; intros m; simpl; [lia|].
  specialize (IH (bestByApn_step m r)).
  assert (List.length (bestByApn_step m r) <= S (List.length m)).
  { unfold bestByApn_step. destruct (JSMap.get m (Cleaned.napn r)).
    - destruct (ltb _ _); [apply length_set | lia].
    - apply length_set. }
  lia.
Qed.

(** X9. The output rows have pairwise distinct normalized apns; the
    normalized apn of every listing row that passes the filter is the
    one of some output row; and the output has at most as many rows as
    there are listing rows. *)
Theorem one_output_row_per_parcel
    (listingRows : list Listing.t) (climateRows : list Climate.t) :
  let output := pipeline listingRows climateRows in
  NoDup (map (fun row => normalizeApn (Enriched.apn row)) output)
  /\ (forall r, In r listingRows -> kept r = true ->
        exists row,
          In row output
          /\ normalizeApn (Enriched.apn row) = normalizeApn (Listing.apn r))
  /\ List.length output <= List.length listingRows.
Proof.
  intros output. pose proof (retained_invariant listingRows) as Inv.
  split; [|split].
  - unfold output. rewrite output_keys. apply (best_keys_distinct _ _ Inv).
  - intros r Hr Hk.
    assert (Hc : In (clean_row r) (build_cleaned listingRows))
      by (apply In_cleaned; eauto).
    pose proof (best_covers _ _ Inv _ Hc) as Hget.
    destruct (JSMap.get (build_bestByApn (build_cleaned listingRows))
                (Cleaned.napn (clean_row r))) as [c|] eqn:E; [|easy].
    exists (enrich_row (build_climateIndex climateRows) c). split.
    + apply In_pipeline. exists c. split; [|reflexivity].
      apply JSMapFacts.In_values; [apply (best_keys_distinct _ _ Inv) | eauto].
    + simpl. rewrite <- (retained_napn listingRows c).
      * exact (get_keyed _ _ _ (best_keyed_by_napn _ _ Inv) E).
      * apply JSMapFacts.In_values; [apply (best_keys_distinct _ _ Inv) | eauto].
  - unfold output, pipeline.
    rewrite (Permutation_length (sort_Permutation by_price _)).
    rewrite build_enriched_map, length_map. unfold JSMap.values.
    rewrite length_map.
    pose proof (length_bestByApn (build_cleaned listingRows) JSMap.empty) as H1.
    assert (H2 : List.length (build_cleaned listingRows)
                 <= List.length listingRows).
    { rewrite build_cleaned_filter, length_map. apply length_filter. }
    unfold build_bestByApn. simpl in H1. lia.
Qed.

Lemma one_output_row_per_parcel_witness :
  exists row,
    In row (pipeline demo_listing_rows demo_climate_rows)
    /\ normalizeApn (Enriched.apn row) = normalizeApn (Listing.apn pending_row).
Proof.
  apply (proj1 (proj2 (one_output_row_per_parcel demo_listing_rows
                         demo_climate_rows)) pending_row).
  - vm_compute. right. right. now left.
  - vm_compute. reflexivity.
Defined.

(** ** The lowest price of a parcel *)

Lemma leb_refl (a : number) : is_nan a = false -> leb a a = true.
Proof.
  unfold leb, SFleb. destruct a as [[]|[]| |[] m e]; simpl; try easy;
    intros _; rewrite Z.compare_refl;
    change (Pos.compare_cont Eq m m) with (Pos.compare m m);
    now rewrite Pos.compare_refl.
Qed.

(** X10. The price of an output row is at most the coerced price of
    every listing row that passes the filter and has the same
    normalized apn. *)
Theorem output_price_is_lowest
    (listingRows : list Listing.t) (climateRows : list Climate.t)
    (row : Enriched.t) (r : Listing.t) :
  In row (pipeline listingRows climateRows) ->
  In r listingRows -> kept r = true ->
  normalizeApn (Listing.apn r) = normalizeApn (Enriched.apn row) ->
  leb (Enriched.price row) (num (Listing.price r)) = true.
Proof.
  intros Hrow Hr Hk Hkey.
  apply In_pipeline in Hrow. destruct Hrow as (c & Hc & ->). simpl in *.
  pose proof (retained_napn _ _ Hc) as Hn.
  pose proof (retained_invariant listingRows) as Inv.
  apply JSMapFacts.In_values in Hc; [|apply (best_keys_distinct _ _ Inv)].
  destruct Hc as [k Hget].
  destruct (best_is_first_minimum _ _ Inv _ _ Hget)
    as (before & after & Hsplit & Hb & Ha).
  assert (Hin : In (clean_row r) (build_cleaned listingRows))
    by (apply In_cleaned; eauto).
  assert (Hsame : Cleaned.napn (clean_row r) = Cleaned.napn c)
    by (simpl; congruence).
  rewrite Hsplit in Hin. apply in_app_or in Hin.
  change (num (Listing.price r)) with (Cleaned.price (clean_row r)).
  destruct (kept_complete r Hk) as (_ & _ & _ & Hp & _).
  destruct Hin as [Hin|[E|Hin]].
  - apply JSNumberOrder.ltb_leb. now apply Hb.
  - rewrite E. apply leb_refl, JSNumberOrder.isFinite_not_nan. exact Hp.
  - now apply Ha.
Qed.

Lemma output_price_is_lowest_witness :
  leb (Enriched.price (enrich_row (build_climateIndex demo_climate_rows)
                         (clean_row pending_row)))
    (num "800000")
  = true.
Proof.
  apply (output_price_is_lowest demo_listing_rows demo_climate_rows
           (enrich_row (build_climateIndex demo_climate_rows)
              (clean_row pending_row))
           pending_row).
  - vm_compute. right. right. now left.
  - vm_compute. right. right. now left.
  - vm_compute. reflexivity.
  - reflexivity.
Defined.

(** ** The climate rows and the listing fields *)

Section SortMap.
Context {A B : Type} (g : A -> B).
Context (comparefnA : A -> A -> number) (comparefnB : B -> B -> number).
Hypothesis compare_g : forall a b, comparefnB (g a) (g b) = comparefnA a b.

Lemma sort_insert_map x l :
  map g (sort_insert comparefnA x l) = sort_insert comparefnB (g x) (map g l).
Proof.
  induction l as [|y l IH]; simpl; [reflexivity|].
  unfold comes_before. rewrite compare_g.
  destruct (ltb (comparefnA y x) zero); simpl; [now rewrite IH | reflexivity].
Qed.

Lemma sort_map l : map g (sort comparefnA l) = sort comparefnB (map g l).
Proof.
  induction l as [|x l IH]; simpl; [reflexivity|].
  now rewrite sort_insert_map, IH.
Qed.
End SortMap.

Lemma pipeline_enriches_sorted listingRows climateRows :
  pipeline listingRows climateRows
  = map (enrich_row (build_climateIndex climateRows))
      (sort (fun a b => sub (Cleaned.price a) (Cleaned.price b))
         (JSMap.values (build_bestByApn (build_cleaned listingRows)))).
Proof.
  unfold pipeline. rewrite build_enriched_map. symmetry.
  now apply sort_map.
Qed.

(** X11. The climate rows decide nothing but the two climate fields:
    with any two lists of climate rows the output has the same rows in
    the same order as far as [apn], [full_address], [price], [beds],
    [baths], [sqft], [price_per_sqft] and [status] go. *)
Theorem climate_rows_leave_listing_fields
    (listingRows : list Listing.t) (climateRows climateRows' : list Climate.t) :
  map listing_part (pipeline listingRows climateRows)
  = map listing_part (pipeline listingRows climateRows').
Proof.
  rewrite !pipeline_enriches_sorted, !List.map_map. reflexivity.
Qed.

(** ** Deduplication of rows of distinct parcels *)

Lemma bestByApn_fresh cleaned bestByApn :
  NoDup (map Cleaned.napn cleaned) ->
  (forall r, In r cleaned -> JSMap.get bestByApn (Cleaned.napn r) = None) ->
  JSMap.values (fold_left bestByApn_step cleaned bestByApn)
  = JSMap.values bestByApn ++ cleaned.
Proof.
  revert bestByApn. induction cleaned as [|r l IH]; intros m Hnd Hfresh; simpl.
  - now rewrite app_nil_r.
  - simpl in Hnd. apply NoDup_cons in Hnd. destruct Hnd as [Hr Hnd].
    assert (Hget : JSMap.get m (Cleaned.napn r) = None)
      by (apply Hfresh; now left).
    unfold bestByApn_step at 2. rewrite Hget.
    rewrite IH; [| exact Hnd |].
    + rewrite JSMapFacts.values_set_fresh by exact Hget.
      now rewrite <- app_assoc.
    + intros r' Hr'. rewrite JSMapFacts.get_set_ne; [apply Hfresh; now right|].
      intros Heq. apply Hr. rewrite Heq.
      apply list_elem_of_In, in_map, Hr'.
Qed.

Lemma bestByApn_keys_NoDup cleaned bestByApn :
  NoDup (JSMap.keys bestByApn) ->
  NoDup (JSMap.keys (fold_left bestByApn_step cleaned bestByApn)).
Proof.
  revert bestByApn. induction cleaned as [|r l IH]; intros m Hnd; [exact Hnd|].
  simpl. apply IH. unfold bestByApn_step.
  destruct (JSMap.get m (Cleaned.napn r)).
  - destruct (ltb _ _); [now apply keys_set_NoDup | exact Hnd].
  - now apply keys_set_NoDup.
Qed.

Lemma bestByApn_keyed cleaned bestByApn :
  Forall (fun kv => Cleaned.napn (snd kv) = fst kv) bestByApn ->
  Forall (fun kv => Cleaned.napn (snd kv) = fst kv)
    (fold_left bestByApn_step cleaned bestByApn).
Proof.
  revert bestByApn. induction cleaned as [|r l IH]; intros m Hk; [exact Hk|].
  simpl. apply IH. unfold bestByApn_step.
  destruct (JSMap.get m (Cleaned.napn r)).
  - destruct (ltb _ _); [now apply set_keyed | exact Hk].
  - now apply set_keyed.
Qed.

Lemma retained_distinct cleaned :
  NoDup (map Cleaned.napn (JSMap.values (build_bestByApn cleaned))).
Proof.
  rewrite napn_values by (apply bestByApn_keyed; constructor).
  apply bestByApn_keys_NoDup. apply NoDup_nil_2.
Qed.

(** X12. Candidates with pairwise distinct normalized apns are all
    retained, in their order; so deduplicating what a deduplication
    retained changes nothing, whatever the candidates and their prices
    were. *)
Theorem dedup_keeps_distinct_parcels (cleaned : list Cleaned.t) :
  (NoDup (map Cleaned.napn cleaned) ->
   JSMap.values (build_bestByApn cleaned) = cleaned)
  /\ JSMap.values (build_bestByApn (JSMap.values (build_bestByApn cleaned)))
     = JSMap.values (build_bestByApn cleaned).
Proof.
  assert (H : forall l, NoDup (map Cleaned.napn l) ->
                        JSMap.values (build_bestByApn l) = l).
  { intros l Hl. unfold build_bestByApn.
    now rewrite bestByApn_fresh. }
  split; [apply H|]. apply H, retained_distinct.
Qed.

Lemma dedup_keeps_distinct_parcels_witness :
  JSMap.values (build_bestByApn (map clean_row [pending_row; zero_sqft_row]))
  = map clean_row [pending_row; zero_sqft_row].
Proof.
  apply (proj1 (dedup_keeps_distinct_parcels
                  (map clean_row [pending_row; zero_sqft_row]))).
  vm_compute. repeat constructor; rewrite ?list_elem_of_In; simpl; intuition discriminate.
Defined.

(** ** The order of the retained rows *)

Lemma filter_filter_and {A} (f g : A -> bool) l :
  List.filter f (List.filter g l) = List.filter (fun x => g x && f x) l.
Proof.
  induction l as [|x l IH]; simpl; [reflexivity|].
  destruct (g x); simpl; [destruct (f x); now rewrite IH | exact IH].
Qed.

Lemma bestByApn_step_keys bestByApn r :
  JSMap.keys (bestByApn_step bestByApn r)
  = if bool_decide (Cleaned.napn r ∈ JSMap.keys bestByApn)
    then JSMap.keys bestByApn
    else JSMap.keys bestByApn ++ [Cleaned.napn r].
Proof.
  unfold bestByApn_step.
  destruct (JSMap.get bestByApn (Cleaned.napn r)) as [existing|] eqn:E.
  - rewrite bool_decide_eq_true_2.
    + destruct (ltb _ _); [|reflexivity].
      apply JSMapFacts.keys_set_present. congruence.
    + destruct (decide (Cleaned.napn r ∈ JSMap.keys bestByApn)) as [H|H];
        [exact H|]. apply JSMapFacts.get_None in H. congruence.
  - rewrite bool_decide_eq_false_2 by (now apply JSMapFacts.get_None).
    now apply JSMapFacts.keys_set_fresh.
Qed.

Lemma bestByApn_keys cleaned bestByApn :
  JSMap.keys (fold_left bestByApn_step cleaned bestByApn)
  = JSMap.keys bestByApn
    ++ List.filter (fun k => negb (bool_decide (k ∈ JSMap.keys bestByApn)))
         (first_occurrences (map Cleaned.napn cleaned)).
Proof.
  revert bestByApn. induction cleaned as [|r l IH]; intros m; simpl.
  - now rewrite app_nil_r.
  - rewrite IH, bestByApn_step_keys.
    destruct (bool_decide_reflect (Cleaned.napn r ∈ JSMap.keys m)) as [E|E];
      simpl.
    + f_equal. rewrite filter_filter_and. apply List.filter_ext. intros k.
      destruct (bool_decide_reflect (k ∈ JSMap.keys m)) as [Hk|Hk],
        (bool_decide_reflect (k = Cleaned.napn r)) as [Hr|Hr];
        simpl; try reflexivity. subst k. contradiction.
    + rewrite <- app_assoc. simpl. do 2 f_equal.
      rewrite filter_filter_and. apply List.filter_ext. intros k.
      destruct (bool_decide_reflect (k ∈ JSMap.keys m ++ [Cleaned.napn r]))
        as [Hk|Hk],
        (bool_decide_reflect (k ∈ JSMap.keys m)) as [Hm|Hm],
        (bool_decide_reflect (k = Cleaned.napn r)) as [Hr|Hr];
        simpl; try reflexivity; exfalso;
        rewrite elem_of_app, list_elem_of_singleton in Hk; tauto.
Qed.

Lemma filter_true {A} (l : list A) : List.filter (fun _ => true) l = l.
Proof. induction l as [|x l IH]; simpl; congruence. Qed.

(** X13. The deduplication retains the rows in the order in which
    their normalized apns first occur among the candidates, whether a
    later and cheaper row took the place of the first one or not. *)
Theorem dedup_keeps_order_of_first_occurrence (cleaned : list Cleaned.t) :
  map Cleaned.napn (JSMap.values (build_bestByApn cleaned))
  = first_occurrences (map Cleaned.napn cleaned).
Proof.
  rewrite napn_values by (apply bestByApn_keyed; constructor).
  unfold build_bestByApn. rewrite bestByApn_keys. simpl.
  apply filter_true.
Qed.

(** The second row of a parcel replaces the first one and stays at its
    place, before the row of the other parcel. *)
Example dedup_replaces_in_place :
  let row apn address price :=
    clean_row {| Listing.apn := apn; Listing.address := address;
                 Listing.city := ""; Listing.state := ""; Listing.zip := "1";
                 Listing.price := price; Listing.beds := None;
                 Listing.baths := None; Listing.sqft := "10";
                 Listing.status := "sold" |} in
  map Cleaned.address
    (JSMap.values
       (build_bestByApn [row "1" "a" "500"; row "2" "b" "300"; row "1" "c" "400"]))
  = ["c"; "b"].
Proof. vm_compute. reflexivity. Qed.

(** ** The join *)

Lemma climateIndex_fold_last climateRows climateIndex k :
  k <> "" ->
  JSMap.get (fold_left climateIndex_step climateRows climateIndex) k
  = match last_match k climateRows with
    | Some c => Some (climate_entry c)
    | None => JSMap.get climateIndex k
    end.
Proof.
  intros Hk. revert climateIndex.
  induction climateRows as [|c rest IH]; intros m; simpl; [reflexivity|].
  rewrite IH. destruct (last_match k rest); [reflexivity|].
  unfold climateIndex_step.
  destruct (decide (normalizeApn (Climate.apn c) = k)) as [E|E].
  - rewrite E. destruct (is_empty k) eqn:Ee;
      [apply is_empty_true in Ee; contradiction|].
    apply JSMapFacts.get_set_eq.
  - destruct (is_empty (normalizeApn (Climate.apn c))); [reflexivity|].
    now apply JSMapFacts.get_set_ne.
Qed.

(** X14. A lookup in the climate index returns, for a key that is not
    empty, the attributes of the last climate row whose normalized apn
    is that key, and nothing when there is no such row; for the empty
    key it returns nothing. *)
Theorem climate_index_lookup (climateRows : list Climate.t) (k : string) :
  JSMap.get (build_climateIndex climateRows) k
  = if is_empty k then None
    else option_map climate_entry (last_match k climateRows).
Proof.
  destruct (is_empty k) eqn:E.
  - apply is_empty_true in E. subst k. now apply climateIndex_no_empty_key.
  - unfold build_climateIndex. rewrite climateIndex_fold_last.
    + now destruct (last_match k climateRows).
    + intros ->. discriminate.
Qed.

Lemma enrich_row_join climateRows c :
  Cleaned.napn c <> "" ->
  let row := enrich_row (build_climateIndex climateRows) c in
  (Enriched.flood_zone row, Enriched.avg_rain_inches row)
  = match last_match (Cleaned.napn c) climateRows with
    | Some cl =>
        (ClimateEntry.flood_zone (climate_entry cl),
         ClimateEntry.avg_rain_inches (climate_entry cl))
    | None => (None, None)
    end.
Proof.
  intros Hk. simpl. unfold build_climateIndex.
  rewrite climateIndex_fold_last by exact Hk.
  now destruct (last_match (Cleaned.napn c) climateRows).
Qed.

(** X15. The two climate fields of an output row are those of the last
    climate row whose normalized apn is the normalized apn of the row,
    and are both [null] when there is no such climate row. *)
Theorem output_rows_are_joined
    (listingRows : list Listing.t) (climateRows : list Climate.t)
    (row : Enriched.t) :
  In row (pipeline listingRows climateRows) ->
  (Enriched.flood_zone row, Enriched.avg_rain_inches row)
  = match last_match (normalizeApn (Enriched.apn row)) climateRows with
    | Some c =>
        (ClimateEntry.flood_zone (climate_entry c),
         ClimateEntry.avg_rain_inches (climate_entry c))
    | None => (None, None)
    end.
Proof.
  intros Hrow. apply In_pipeline in Hrow. destruct Hrow as (c & Hc & ->).
  apply In_retained_cleaned in Hc. destruct Hc as (r & _ & Hk & ->).
  destruct (kept_complete r Hk) as (Hn & _).
  now apply (enrich_row_join climateRows (clean_row r)).
Qed.

Lemma output_rows_are_joined_witness :
  let row := enrich_row (build_climateIndex demo_climate_rows)
               (clean_row pending_row) in
  (Enriched.flood_zone row, Enriched.avg_rain_inches row)
  = (Some "X", Some (num "61.3")).
Proof.
  intros row.
  rewrite (output_rows_are_joined demo_listing_rows demo_climate_rows row).
  - vm_compute. reflexivity.
  - vm_compute. right. right. now left.
Defined.

Lemma climate_entry_shape c :
  ClimateEntry.flood_zone (climate_entry c) <> Some ""
  /\ (ClimateEntry.avg_rain_inches (climate_entry c) = None
      \/ ClimateEntry.avg_rain_inches (climate_entry c) = Some NaN
      \/ exists x, ClimateEntry.avg_rain_inches (climate_entry c) = Some x
                   /\ well_formed x).
Proof.
  unfold climate_entry. simpl. split.
  - destruct (Climate.flood_zone c) as [[|a s]|]; simpl; congruence.
  - destruct (Climate.avg_rain_inches c) as [v|]; [|now left].
    destruct (String.eqb v ""); [now left|]. right.
    destruct (isFinite (num v)) eqn:E.
    + right. exists (num v). split; [reflexivity|].
      now apply JSNumberFacts.num_well_formed.
    + left. f_equal. unfold num in *.
      destruct (isFinite (StringToNumber v)) eqn:E'; [congruence | reflexivity].
Qed.

(** X16. In an output row [flood_zone] is [null] or a string that is
    not empty, and [avg_rain_inches] is [null], [NaN] or a finite
    number: never an infinity. *)
Theorem output_climate_fields
    (listingRows : list Listing.t) (climateRows : list Climate.t)
    (row : Enriched.t) :
  In row (pipeline listingRows climateRows) ->
  Enriched.flood_zone row <> Some ""
  /\ (Enriched.avg_rain_inches row = None
      \/ Enriched.avg_rain_inches row = Some NaN
      \/ exists x, Enriched.avg_rain_inches row = Some x /\ well_formed x).
Proof.
  intros Hrow. apply In_pipeline in Hrow. destruct Hrow as (c & Hc & ->).
  apply In_retained_cleaned in Hc. destruct Hc as (r & _ & Hk & ->).
  destruct (kept_complete r Hk) as (Hn & _).
  pose proof (enrich_row_join climateRows (clean_row r) Hn) as H.
  cbv zeta in H.
  pose proof (f_equal fst H) as Hf. pose proof (f_equal snd H) as Ha.
  cbn [fst snd] in Hf, Ha. rewrite Hf, Ha.
  destruct (last_match (Cleaned.napn (clean_row r)) climateRows) as [cl|].
  - apply climate_entry_shape.
  - split; [discriminate | now left].
Qed.

Lemma output_climate_fields_witness :
  Enriched.flood_zone (enrich_row (build_climateIndex demo_climate_rows)
                         (clean_row pending_row))
  <> Some "".
Proof.
  apply (output_climate_fields demo_listing_rows demo_climate_rows).
  vm_compute. right. right. now left.
Defined.

(** ** The comparison function of the sort *)

Lemma ltb_asym (a b : number) : ltb a b = true -> ltb b a = false.
Proof.
  unfold ltb, SFltb. rewrite (JSNumberOrder.compare_antisym a b).
  now destruct (SFcompare a b) as [[]|].
Qed.

Lemma leb_not_ltb (a b : number) : leb a b = true -> ltb b a = false.
Proof.
  unfold ltb, leb, SFltb, SFleb. rewrite (JSNumberOrder.compare_antisym a b).
  now destruct (SFcompare a b) as [[]|].
Qed.

Lemma sub_not_nan (a b : number) :
  well_formed a -> well_formed b -> is_nan (sub a b) = false.
Proof.
  intros [Fa Va] [Fb Vb].
  destruct a as [sa|sa| |sa ma ea], b as [sb|sb| |sb mb eb];
    try discriminate; try reflexivity.
  - now destruct sa, sb.
  - simpl in Va, Vb. unfold sub, SFsub.
    set (M := (cond_Zopp sa (Zpos (fst (shl_align ma ea (Z.min ea eb))))
               - cond_Zopp sb (Zpos (fst (shl_align mb eb (Z.min ea eb)))))%Z).
    destruct (Z.eq_dec M 0%Z) as [E|E]; [now rewrite E|].
    assert (Hmin : (SpecFloat.emin prec emax <= Z.min ea eb)%Z).
    { apply JSNumberFacts.bounded_canonical in Va, Vb.
      rewrite JSNumberFacts.fexp_eq in Va, Vb.
      rewrite JSNumberFacts.emin_eq. lia. }
    destruct (JSNumberFacts.binary_normalize_spec M _ E Hmin) as [Hr _].
    exact (JSNumberFacts.rounded_not_nan _ _ Hr).
Qed.

(** X17. On two rows that the enrichment produced, the difference of
    the prices that the sort compares is never [NaN], and it is below
    zero exactly when the first price is below the second: the
    comparison never puts each of two rows before the other. *)
Theorem price_comparison_is_consistent
    (listingRows : list Listing.t) (climateRows : list Climate.t)
    (a b : Enriched.t) :
  let enriched :=
    build_enriched (build_climateIndex climateRows)
      (build_bestByApn (build_cleaned listingRows)) in
  In a enriched -> In b enriched ->
  is_nan (by_price a b) = false
  /\ comes_before by_price a b = ltb (Enriched.price a) (Enriched.price b)
  /\ (comes_before by_price a b = true -> comes_before by_price b a = false).
Proof.
  intros enriched Ha Hb.
  pose proof (enriched_well_formed listingRows climateRows) as Hwf.
  rewrite List.Forall_forall in Hwf.
  pose proof (Hwf a Ha) as Wa. pose proof (Hwf b Hb) as Wb.
  split; [now apply sub_not_nan|]. split.
  - now apply comes_before_by_price.
  - rewrite !comes_before_by_price by assumption. apply ltb_asym.
Qed.

Lemma price_comparison_is_consistent_witness :
  let a := enrich_row JSMap.empty (clean_row pending_row) in
  let b := enrich_row JSMap.empty (clean_row zero_sqft_row) in
  comes_before by_price a b = ltb (Enriched.price a) (Enriched.price b).
Proof.
  intros a b.
  apply (price_comparison_is_consistent [pending_row; zero_sqft_row] [] a b).
  - vm_compute. now left.
  - vm_compute. right. now left.
Defined.

(** ** Sorting twice *)

Lemma sort_sorted_fixed l :
  Forall well_priced l -> StronglySorted price_le l -> sort by_price l = l.
Proof.
  intros Hwf Hs. induction l as [|x l IH]; [reflexivity|].
  inversion Hwf as [|? ? Hx Hl]; subst.
  inversion Hs as [|? ? Hs' Hxl]; subst.
  simpl. rewrite IH by assumption.
  destruct l as [|y l']; [reflexivity|]. simpl.
  inversion Hl as [|? ? Hy _]; subst. inversion Hxl as [|? ? Hxy _]; subst.
  rewrite comes_before_by_price by assumption.
  now rewrite (leb_not_ltb _ _ Hxy).
Qed.

(** X18. Sorting the output once more by price leaves it as it is. *)
Theorem output_is_fixed_by_sort
    (listingRows : list Listing.t) (climateRows : list Climate.t) :
  sort by_price (pipeline listingRows climateRows)
  = pipeline listingRows climateRows.
Proof.
  pose proof (enriched_well_formed listingRows climateRows) as Hwf.
  apply sort_sorted_fixed.
  - now apply sort_wf.
  - now apply sort_sorted.
Qed.

(** ** Rows that the filter drops *)

(** X19. A listing row that the filter drops leaves no trace: the
    output is the same with the row and without it, wherever the row
    stands. *)
Theorem dropped_row_leaves_no_trace
    (before after : list Listing.t) (r : Listing.t)
    (climateRows : list Climate.t) :
  kept r = false ->
  pipeline (before ++ r :: after) climateRows
  = pipeline (before ++ after) climateRows.
Proof.
  intros Hk. unfold pipeline.
  rewrite !build_cleaned_filter, !filter_app, filter_cons.
  rewrite decide_False by congruence. reflexivity.
Qed.

Lemma dropped_row_leaves_no_trace_witness :
  pipeline ([pending_row] ++ withdrawn_row :: [zero_sqft_row]) []
  = pipeline ([pending_row] ++ [zero_sqft_row]) [].
Proof.
  apply (dropped_row_leaves_no_trace [pending_row] [zero_sqft_row]
           withdrawn_row []).
  vm_compute. reflexivity.
Defined.

(** ** Bedrooms and bathrooms *)

Lemma clean_row_counts r :
  Cleaned.beds (clean_row r) = optional_count (Listing.beds r)
  /\ Cleaned.baths (clean_row r) = optional_count (Listing.baths r).
Proof.
  unfold clean_row, optional_count. simpl.
  split; [destruct (Listing.beds r) as [[|a s]|]
         | destruct (Listing.baths r) as [[|a s]|]]; reflexivity.
Qed.

(** X20. In an output row, [beds] and [baths] are [null] exactly when
    the listing has no such column or an empty text there; any other
    text is coerced, so that the text 0 gives the number zero and not
    [null], and a text that is not a number gives [NaN]; neither field
    is ever an infinity. *)
Theorem output_counts
    (listingRows : list Listing.t) (climateRows : list Climate.t)
    (row : Enriched.t) :
  In row (pipeline listingRows climateRows) ->
  exists r,
    In r listingRows /\ kept r = true
    /\ Enriched.apn row = Listing.apn r
    /\ Enriched.beds row = optional_count (Listing.beds r)
    /\ Enriched.baths row = optional_count (Listing.baths r)
    /\ (forall s, Enriched.beds row <> Some (S754_infinity s))
    /\ (forall s, Enriched.baths row <> Some (S754_infinity s)).
Proof.
  intros Hrow. apply In_pipeline in Hrow. destruct Hrow as (c & Hc & ->).
  apply In_retained_cleaned in Hc. destruct Hc as (r & Hr & Hk & ->).
  destruct (clean_row_counts r) as [Hb Ht].
  exists r. cbn [enrich_row Enriched.apn Enriched.beds Enriched.baths].
  rewrite Hb, Ht. repeat split; try assumption.
  - intros s. unfold optional_count.
    destruct (Listing.beds r) as [v|]; [|discriminate].
    destruct (is_empty v); [discriminate|]. intros [= H].
    unfold num in H. destruct (isFinite (StringToNumber v)) eqn:E;
      [rewrite H in E|]; discriminate.
  - intros s. unfold optional_count.
    destruct (Listing.baths r) as [v|]; [|discriminate].
    destruct (is_empty v); [discriminate|]. intros [= H].
    unfold num in H. destruct (isFinite (StringToNumber v)) eqn:E;
      [rewrite H in E|]; discriminate.
Qed.

Lemma output_counts_witness :
  exists r,
    In r demo_listing_rows
    /\ Enriched.beds (enrich_row (build_climateIndex demo_climate_rows)
                        (clean_row pending_row))
       = optional_count (Listing.beds r).
Proof.
  destruct (output_counts demo_listing_rows demo_climate_rows
              (enrich_row (build_climateIndex demo_climate_rows)
                 (clean_row pending_row)))
    as (r & Hr & _ & _ & Hb & _).
  - vm_compute. right. right. now left.
  - exists r. split; assumption.
Defined.

(** The text 0 is a count of zero, the empty text is no count, and a
    text that is not a number is [NaN]. *)
Example optional_count_values :
  optional_count (Some "0") = Some zero
  /\ optional_count (Some "") = None
  /\ optional_count None = None
  /\ optional_count (Some "two") = Some NaN.
Proof. repeat split; vm_compute; reflexivity. Qed.

(** ** The order of the climate rows *)

Lemma last_match_In k climateRows c :
  last_match k climateRows = Some c ->
  In c climateRows /\ normalizeApn (Climate.apn c) = k.
Proof.
  induction climateRows as [|c0 rest IH]; simpl; [discriminate|].
  destruct (last_match k rest) as [c'|].
  - intros [= ->]. destruct (IH eq_refl). tauto.
  - destruct (decide (normalizeApn (Climate.apn c0) = k)); [|discriminate].
    intros [= ->]. tauto.
Qed.

Lemma last_match_None k climateRows :
  (forall c, In c climateRows -> normalizeApn (Climate.apn c) <> k) ->
  last_match k climateRows = None.
Proof.
  induction climateRows as [|c0 rest IH]; intros H; simpl; [reflexivity|].
  rewrite IH by (intros; apply H; now right).
  rewrite decide_False; [reflexivity | apply H; now left].
Qed.

Lemma last_match_unique k climateRows c :
  NoDup (map (fun c => normalizeApn (Climate.apn c)) climateRows) ->
  In c climateRows -> normalizeApn (Climate.apn c) = k ->
  last_match k climateRows = Some c.
Proof.
  induction climateRows as [|c0 rest IH]; intros Hnd Hin Hk; [easy|].
  simpl in Hnd. apply NoDup_cons in Hnd. destruct Hnd as [H0 Hnd]. simpl.
  destruct Hin as [->|Hin].
  - rewrite last_match_None.
    + now rewrite decide_True by exact Hk.
    + intros c' Hc' Heq. apply H0. rewrite Hk, <- Heq.
      apply list_elem_of_In.
      exact (in_map (fun c => normalizeApn (Climate.apn c)) rest c' Hc').
  - now rewrite (IH Hnd Hin Hk).
Qed.

Lemma last_match_Permutation k climateRows climateRows' :
  Permutation climateRows climateRows' ->
  NoDup (map (fun c => normalizeApn (Climate.apn c)) climateRows) ->
  last_match k climateRows' = last_match k climateRows.
Proof.
  intros Hp Hnd.
  assert (Hnd' : NoDup (map (fun c => normalizeApn (Climate.apn c)) climateRows'))
    by (now rewrite <- (Permutation_map _ Hp)).
  destruct (last_match k climateRows) as [c|] eqn:E.
  - apply last_match_In in E. destruct E as [Hin Hk].
    apply last_match_unique; [exact Hnd' | | exact Hk].
    now apply (Permutation_in _ Hp).
  - apply last_match_None. intros c Hc Hk.
    apply (Permutation_in _ (Permutation_sym Hp)) in Hc.
    rewrite (last_match_unique k climateRows c Hnd Hc Hk) in E. discriminate.
Qed.

(** X21. When no two climate rows have the same normalized apn, the
    order of the climate rows does not matter: the output is the same
    for any rearrangement of them. *)
Theorem climate_order_is_irrelevant
    (listingRows : list Listing.t) (climateRows climateRows' : list Climate.t) :
  Permutation climateRows climateRows' ->
  NoDup (map (fun c => normalizeApn (Climate.apn c)) climateRows) ->
  pipeline listingRows climateRows' = pipeline listingRows climateRows.
Proof.
  intros Hp Hnd. rewrite !pipeline_enriches_sorted.
  apply map_ext. intros c. unfold enrich_row.
  assert (Hget : JSMap.get (build_climateIndex climateRows') (Cleaned.napn c)
                 = JSMap.get (build_climateIndex climateRows) (Cleaned.napn c)).
  { destruct (is_empty (Cleaned.napn c)) eqn:E.
    - apply is_empty_true in E. rewrite E. unfold build_climateIndex.
      now rewrite !climateIndex_no_empty_key.
    - unfold build_climateIndex.
      rewrite !climateIndex_fold_last by (intros H; rewrite H in E; discriminate).
      now rewrite (last_match_Permutation _ _ _ Hp Hnd). }
  now rewrite Hget.
Qed.

Lemma climate_order_is_irrelevant_witness :
  pipeline demo_listing_rows demo_climate_rows_swapped
  = pipeline demo_listing_rows demo_climate_rows.
Proof.
  apply climate_order_is_irrelevant.
  - vm_compute. apply Permutation_sym.
    eapply perm_trans; [apply perm_swap|].
    eapply perm_trans; [apply perm_skip, perm_swap|]. apply perm_swap.
  - vm_compute.
    repeat constructor; rewrite ?list_elem_of_In; simpl; intuition discriminate.
Defined.

(** ** One run of [process] after another *)

(** X22. A run of [process] that fails after one that succeeded keeps
    the rows of the run that succeeded next to the one error, so that
    the export buttons stay enabled when there are such rows; a run
    that succeeds removes the error of a run that failed; and running
    [process] again on the same rows changes nothing. *)
Theorem process_after_process (String_of_error : ZodError -> string)
    (st : UI.state) (listings climate listings' climate' : list RawRecord) :
  (forall rows err,
      enrichListings listings climate = Ok rows ->
      enrichListings listings' climate' = Err err ->
      let st' := process String_of_error
                   (process String_of_error st listings climate)
                   listings' climate' in
      st' = {| UI.results := rows; UI.errors := [String_of_error err] |}
      /\ (rows <> [] -> export_disabled st' = false))
  /\ (forall rows err,
      enrichListings listings climate = Err err ->
      enrichListings listings' climate' = Ok rows ->
      process String_of_error
        (process String_of_error st listings climate) listings' climate'
      = {| UI.results := rows; UI.errors := [] |})
  /\ process String_of_error
       (process String_of_error st listings climate) listings climate
     = process String_of_error st listings climate.
Proof.
  unfold process. split; [|split].
  - intros rows err -> ->. simpl. split; [reflexivity|].
    now destruct rows.
  - now intros rows err -> ->.
  - now destruct (enrichListings listings climate).
Qed.

Lemma process_after_process_witness :
  exists rows err,
    process (fun _ => "ZodError")
      (process (fun _ => "ZodError") {| UI.results := []; UI.errors := [] |}
         demo_rows demo_climate)
      demo_listings demo_climate
    = {| UI.results := rows; UI.errors := ["ZodError"] |}
    /\ enrichListings demo_rows demo_climate = Ok rows
    /\ enrichListings demo_listings demo_climate = Err err.
Proof.
  destruct (enrichListings demo_rows demo_climate) as [rows|] eqn:E1;
    [|vm_compute in E1; discriminate].
  destruct (enrichListings demo_listings demo_climate) as [|err] eqn:E2;
    [vm_compute in E2; discriminate|].
  exists rows, err. split; [|split; reflexivity].
  apply (proj1 (process_after_process (fun _ => "ZodError")
                  {| UI.results := []; UI.errors := [] |}
                  demo_rows demo_climate demo_listings demo_climate)
           rows err E1 E2).
Defined.

(** ** The order of rows of equal price *)

Lemma sublist_map_filter {A B} (f : A -> B) (g : A -> bool) (l : list A) :
  sublist (map f (List.filter g l)) (map f l).
Proof.
  induction l as [|x l IH]; simpl; [constructor|].
  destruct (g x); simpl; now constructor.
Qed.

(** X23. The output rows of one price come in the order in which their
    parcels first occur among the listing rows that pass the filter:
    their normalized apns, in the order of the output, are picked in
    order from the list of first occurrences. *)
Theorem ties_follow_first_occurrence
    (listingRows : list Listing.t) (climateRows : list Climate.t) (p : number) :
  sublist
    (map (fun row => normalizeApn (Enriched.apn row))
       (priced p (pipeline listingRows climateRows)))
    (first_occurrences
       (map (fun r => normalizeApn (Listing.apn r))
          (filter (fun r => kept r = true) listingRows))).
Proof.
  unfold pipeline.
  rewrite (sort_priced p _ (enriched_well_formed listingRows climateRows)).
  assert (Hkeys : map (fun row => normalizeApn (Enriched.apn row))
                    (build_enriched (build_climateIndex climateRows)
                       (build_bestByApn (build_cleaned listingRows)))
                  = first_occurrences
                      (map (fun r => normalizeApn (Listing.apn r))
                         (filter (fun r => kept r = true) listingRows))).
  { rewrite build_enriched_map, List.map_map. simpl.
    transitivity (map Cleaned.napn
                    (JSMap.values (build_bestByApn (build_cleaned listingRows)))).
    - apply map_ext_in. intros c Hc. symmetry.
      now apply retained_napn with listingRows.
    - rewrite napn_values by (apply bestByApn_keyed; constructor).
      unfold build_bestByApn. rewrite bestByApn_keys. simpl.
      rewrite filter_true, build_cleaned_filter, List.map_map. reflexivity. }
  rewrite <- Hkeys. apply sublist_map_filter.
Qed.

(** Three parcels at one price come out in the order of the listings,
    the second listing of the first parcel changing nothing. *)
Example ties_in_listing_order :
  let row apn price :=
    {| Listing.apn := apn; Listing.address := "a"; Listing.city := "";
       Listing.state := ""; Listing.zip := "1"; Listing.price := price;
       Listing.beds := None; Listing.baths := None; Listing.sqft := "10";
       Listing.status := "sold" |} in
  map Enriched.apn
    (pipeline [row "3" "500"; row "1" "500"; row "3-" "500"; row "2" "500"] [])
  = ["3"; "1"; "2"].
Proof. vm_compute. reflexivity. Qed.
